(** * Object stores, provider multiplexer and identifier generation
      of the BaSyx Python SDK

    Shallow embedding of

    - [basyx/aas/model/provider.py]: [DictObjectStore],
      [ObjectProviderMultiplexer] and the provider interface,
    - [basyx/aas/util/identification.py]: [NamespaceIRIGenerator] and
      [_quote_iri_segment],

    together with a model of the name-keyed container ([NamespaceSet]),
    whose implementation is not part of the excerpt.

    Python values are represented as follows.
    - [str] is [string]: the UTF-8 bytes of the text.  Every character the
      code inspects is ASCII, and no byte of a multi-byte UTF-8 sequence is
      below 0x80, so acting on bytes and acting on code points agree.
    - An object is known by its identity ([loc], what [is] compares) and by
      the attributes a method reads.
    - A [dict] is a [gmap]; the values of [_backend] are references.
    - A method that may raise and may write to [self] is a function
      [St -> St * result A]: the state after the call is returned also when
      the call raises, as a Python object keeps what was written before the
      exception. *)

From stdpp Require Import gmap strings list.
From Stdlib Require Import Ascii String DecimalString.
From Stdlib Require DecimalNat.

Local Open Scope string_scope.

(** ** Python runtime: identities, exceptions, methods *)

(** Identity of a Python object. *)
Definition loc := positive.

(** The two exceptions raised in the embedded modules.  The spec calls
    [KeyError] [DuplicateKey] (on insertion) or [NotFound] (on lookup) and
    [ValueError] [InvalidConfig].  Messages are not modelled. *)
Inductive exn := KeyError | ValueError.

Inductive result (A : Type) : Type :=
| Ok (a : A)
| Raise (e : exn).
Arguments Ok {A} a.
Arguments Raise {A} e.

#[global] Instance exn_eq_dec : EqDecision exn.
Proof. solve_decision. Defined.

#[global] Instance result_eq_dec `{EqDecision A} : EqDecision (result A).
Proof. solve_decision. Defined.

(** A method on a receiver of type [St]. *)
Definition M (St A : Type) : Type := St → St * result A.

Definition ret {St A} (a : A) : M St A := λ s, (s, Ok a).
Definition raise {St A} (e : exn) : M St A := λ s, (s, Raise e).
Definition bind {St A B} (m : M St A) (k : A → M St B) : M St B :=
  λ s, match m s with
       | (s', Ok a) => k a s'
       | (s', Raise e) => (s', Raise e)
       end.

Declare Scope py_scope.
Delimit Scope py_scope with py.
Notation "m ;;; k" := (bind m (λ _, k))
  (at level 100, k at level 200, right associativity) : py_scope.

(** [for x in xs: body(x)] *)
Fixpoint for_each {St X} (body : X → M St unit) (xs : list X) : M St unit :=
  match xs with
  | [] => ret ()
  | x :: xs' => (body x ;;; for_each body xs')%py
  end.

(** [o is x], for [o] the result of [dict.get] ([None] when the key is
    missing) and [x] an object. *)
Definition py_is (o : option loc) (x : loc) : bool :=
  match o with
  | Some y => bool_decide (y = x)
  | None => false
  end.

(** ** [basyx/aas/model/provider.py] *)

(** An [Identifiable] as a method receives it: the object's identity and
    the value of its [id] attribute at the time of the call. *)
Record Identifiable := mkIdentifiable { self : loc; id : string }.

(** [AbstractObjectProvider]: the abstract method [get_identifiable].  A
    provider may be a remote client, so a lookup is a method like any other
    and returns the provider's state after the call. *)
Class AbstractObjectProvider (P : Type) :=
  get_identifiable : string → M P loc.

(** [AbstractObjectProvider.get] *)
Definition get `{AbstractObjectProvider P}
    (identifier : string) (default : option loc) : M P (option loc) :=
  λ p, match get_identifiable identifier p with
       | (p', Ok x) => (p', Ok (Some x))
       | (p', Raise KeyError) => (p', Ok default)
       | (p', Raise e) => (p', Raise e)
       end.

Module DictObjectStore.

(** [_backend] as a finite map: which object is stored under which
    identifier.  The order in which a [dict] keeps its entries is not part
    of this record; what depends on it ([__iter__], [as_environment], the
    place an entry takes when it is removed and added again) is stated on
    [OrderedStore] below. *)
Record t := mk { _backend : gmap string loc }.

(** [__init__] with no objects *)
Definition empty : t := {| _backend := ∅ |}.

(** [return self._backend[identifier]] *)
Definition get_identifiable (identifier : string) : M t loc :=
  λ s, match _backend s !! identifier with
       | Some x => (s, Ok x)
       | None => (s, Raise KeyError)
       end.

Definition add (x : Identifiable) : M t unit :=
  λ s, if bool_decide (is_Some (_backend s !! id x))
          && negb (py_is (_backend s !! id x) (self x))
       then (s, Raise KeyError)
       else ({| _backend := <[id x := self x]> (_backend s) |}, Ok ()).

Definition discard (x : Identifiable) : M t unit :=
  λ s, if py_is (_backend s !! id x) (self x)
       then ({| _backend := delete (id x) (_backend s) |}, Ok ())
       else (s, Ok ()).

(** The argument of [__contains__] is any object. *)
Inductive object :=
| PyStr (k : string)
| PyIdentifiable (x : Identifiable)
| PyOther.

Definition __contains__ (x : object) (s : t) : bool :=
  match x with
  | PyStr k => bool_decide (is_Some (_backend s !! k))
  | PyIdentifiable x => py_is (_backend s !! id x) (self x)
  | PyOther => false
  end.

Definition __len__ (s : t) : nat := size (_backend s).

(** [AbstractObjectStore.update] *)
Definition update (other : list Identifiable) : M t unit :=
  for_each add other.

(** [__init__(objects)] *)
Definition init (objects : list Identifiable) : t * result unit :=
  for_each add objects empty.

End DictObjectStore.

#[global] Instance DictObjectStore_provider :
  AbstractObjectProvider DictObjectStore.t := DictObjectStore.get_identifiable.

Module ObjectProviderMultiplexer.
Section Multiplexer.
Context `{AbstractObjectProvider P}.

(** [self.providers]: the providers in list order, each with its state. *)
Record t := mk { providers : list P }.

(** [__init__(registries)]: [None] stands for the empty list. *)
Definition init (registries : option (list P)) : t :=
  {| providers := default [] registries |}.

(** The [for] loop of [get_identifiable] over the providers still to be
    asked; it returns them as the calls leave them. *)
Fixpoint lookup_loop (identifier : string) (ps : list P)
    : list P * result loc :=
  match ps with
  | [] => ([], Raise KeyError)
  | provider :: rest =>
      match get_identifiable identifier provider with
      | (provider', Raise KeyError) =>
          let '(rest', r) := lookup_loop identifier rest in
          (provider' :: rest', r)
      | (provider', r) => (provider' :: rest, r)
      end
  end.

Definition get_identifiable (identifier : string) : M t loc :=
  λ m, let '(ps, r) := lookup_loop identifier (providers m) in
       ({| providers := ps |}, r).

End Multiplexer.
Arguments t P : clear implicits.
End ObjectProviderMultiplexer.

#[global] Instance ObjectProviderMultiplexer_provider
    `{AbstractObjectProvider P} :
  AbstractObjectProvider (ObjectProviderMultiplexer.t P) :=
  ObjectProviderMultiplexer.get_identifiable.

(** ** [DictObjectStore] with the order of its entries

    The methods above do not depend on the order in which a [dict] keeps
    its entries, and [gmap] has none.  [__iter__] and [as_environment] walk
    through [self._backend.values()], which a [dict] gives in the order the
    keys were first inserted.  Here is the store again on such a [dict];
    the theorems below show that the two agree. *)

Module OrderedStore.

(** A [dict]: its entries in insertion order. *)
Definition dict := list (string * loc).

(** [d.get(k)] *)
Fixpoint dict_get (k : string) (d : dict) : option loc :=
  match d with
  | [] => None
  | (k', v) :: d' => if decide (k' = k) then Some v else dict_get k d'
  end.

(** [d[k] = v]: a key already there keeps its place and takes the new
    value, a new key goes to the end. *)
Fixpoint dict_set (k : string) (v : loc) (d : dict) : dict :=
  match d with
  | [] => [(k, v)]
  | (k', v') :: d' =>
      if decide (k' = k) then (k', v) :: d' else (k', v') :: dict_set k v d'
  end.

(** [del d[k]] for a key that is there. *)
Fixpoint dict_del (k : string) (d : dict) : dict :=
  match d with
  | [] => []
  | (k', v') :: d' =>
      if decide (k' = k) then d' else (k', v') :: dict_del k d'
  end.

Record t := mk { _backend : dict }.

Definition empty : t := {| _backend := [] |}.

Definition get_identifiable (identifier : string) : M t loc :=
  λ s, match dict_get identifier (_backend s) with
       | Some x => (s, Ok x)
       | None => (s, Raise KeyError)
       end.

Definition add (x : Identifiable) : M t unit :=
  λ s, if bool_decide (is_Some (dict_get (id x) (_backend s)))
          && negb (py_is (dict_get (id x) (_backend s)) (self x))
       then (s, Raise KeyError)
       else ({| _backend := dict_set (id x) (self x) (_backend s) |}, Ok ()).

Definition discard (x : Identifiable) : M t unit :=
  λ s, if py_is (dict_get (id x) (_backend s)) (self x)
       then ({| _backend := dict_del (id x) (_backend s) |}, Ok ())
       else (s, Ok ()).

Definition __len__ (s : t) : nat := List.length (_backend s).

(** [iter(self._backend.values())], as the list it runs through. *)
Definition __iter__ (s : t) : list loc := (_backend s).*2.

(** The store of the first model with the same entries. *)
Definition to_store (s : t) : DictObjectStore.t :=
  {| DictObjectStore._backend := list_to_map (_backend s) |}.

(** A [dict] holds a key once. *)
Definition well_formed (s : t) : Prop := NoDup (_backend s).*1.

Section Environment.

(** [isinstance(obj, AssetAdministrationShell)], [isinstance(obj,
    Submodel)] and [isinstance(obj, ConceptDescription)]: the classes are
    defined in [types.py], which is not part of the excerpt. *)
Variables is_shell is_submodel is_concept_description : loc → bool.

(** [Environment(asset_administration_shells, submodels,
    concept_descriptions)] *)
Record Environment := mkEnvironment {
  asset_administration_shells : list loc;
  submodels : list loc;
  concept_descriptions : list loc;
}.

(** One turn of the loop of [as_environment]. *)
Definition sort_object (lists : list loc * list loc * list loc) (obj : loc)
    : list loc * list loc * list loc :=
  let '(shells, sms, cds) := lists in
  if is_shell obj then ((shells ++ [obj])%list, sms, cds)
  else if is_submodel obj then (shells, (sms ++ [obj])%list, cds)
  else if is_concept_description obj then (shells, sms, (cds ++ [obj])%list)
  else (shells, sms, cds).

Definition as_environment (s : t) : Environment :=
  let '(shells, sms, cds) := foldl sort_object ([], [], []) (__iter__ s) in
  {| asset_administration_shells := shells;
     submodels := sms;
     concept_descriptions := cds |}.

End Environment.

End OrderedStore.

(** ** [basyx/aas/util/identification.py] *)

(** *** String formatting *)

(** Truth value of a [str] and of an [int]. *)
Definition str_bool (s : string) : bool :=
  match s with
  | EmptyString => false
  | String _ _ => true
  end.
Definition int_bool (n : nat) : bool := negb (Nat.eqb n 0).

(** Left padding with ["0"] up to [width], as the [0w] of a format
    specification does for a number without sign. *)
Fixpoint zeros (n : nat) : string :=
  match n with
  | O => ""
  | S n' => String "0" (zeros n')
  end.
Definition zero_pad (width : nat) (digits : string) : string :=
  zeros (width - String.length digits) ++ digits.

(** ['{:04d}'.format(n)] *)
Definition format_04d (n : nat) : string :=
  zero_pad 4 (NilZero.string_of_uint (Nat.to_uint n)).

Definition hex_digit (d : nat) : ascii :=
  match d with
  | 0 => "0" | 1 => "1" | 2 => "2" | 3 => "3" | 4 => "4" | 5 => "5"
  | 6 => "6" | 7 => "7" | 8 => "8" | 9 => "9" | 10 => "A" | 11 => "B"
  | 12 => "C" | 13 => "D" | 14 => "E" | _ => "F"
  end%char.

Fixpoint hex_digits (fuel n : nat) (acc : string) : string :=
  match fuel with
  | O => acc
  | S fuel' =>
      let acc' := String (hex_digit (n mod 16)) acc in
      if Nat.eqb (n / 16) 0 then acc' else hex_digits fuel' (n / 16) acc'
  end.

(** ['{:02X}'.format(n)] *)
Definition format_02X (n : nat) : string :=
  zero_pad 2 (hex_digits (S n) n "").

(** *** The translation table of [_quote_iri_segment] *)

(** [ord(c)]; for an ASCII character also [c.encode()[0]]. *)
Definition ord (c : ascii) : nat := nat_of_ascii c.

(** The double quote, character 34. *)
Definition double_quote : ascii := "034"%char.

(** The characters of the list comprehension, in source order. *)
Definition quoted_characters : list ascii :=
  [ ":"; "["; "]"; "@";
    "!"; "$"; "'"; "("; ")"; "*"; "+"; ","; ";";
    " "; double_quote; "<"; ">"; "\"; "^"; "`"; "{"; "|"; "}" ]%char.

(** [range(start, stop)] *)
Definition range (start stop : nat) : list nat := seq start (stop - start).

(** [d.update({k: v for ...})]: later entries replace earlier ones. *)
Definition dict_update {V} (d : gmap nat V) (kvs : list (nat * V))
    : gmap nat V :=
  foldl (λ d kv, <[kv.1 := kv.2]> d) d kvs.

(** [_iri_segment_quote_table_tmpl] after the two updates, with the
    one-character keys already turned into ordinals as [str.maketrans]
    does.  [None] marks a character to delete. *)
Definition _iri_segment_quote_table_tmpl : gmap nat (option string) :=
  let quoted :=
    dict_update ∅
      ((λ c, (ord c, Some (String "%" (format_02X (ord c)))))
         <$> quoted_characters) in
  let controls := dict_update quoted ((λ i, (i, None)) <$> range 0 0x1f) in
  <[0x7f := None]> controls.

Definition _iri_segment_quote_table : gmap nat (option string) :=
  _iri_segment_quote_table_tmpl.

(** [str.translate(table)] *)
Fixpoint translate (table : gmap nat (option string)) (s : string) : string :=
  match s with
  | EmptyString => ""
  | String c s' =>
      match table !! ord c with
      | Some (Some replacement) => replacement ++ translate table s'
      | Some None => translate table s'
      | None => String c (translate table s')
      end
  end.

Definition _quote_iri_segment (segment : string) : string :=
  translate _iri_segment_quote_table segment.

(** *** Regular expressions, as far as the namespace pattern needs them *)

(** A character set [[...]]: ranges [a-z] and single characters. *)
Inductive set_item :=
| Range (lo hi : ascii)
| Single (c : ascii).

Inductive atom :=
| Dot                          (* [.]: any character except a newline *)
| Chr (c : ascii)
| Set_ (items : list set_item).

Inductive item :=
| Bol                          (* [^] *)
| Eol                          (* [$] *)
| One (a : atom)
| Star (a : atom).             (* [a*] *)

Definition newline : ascii := ascii_of_nat 10.

Definition set_item_matches (i : set_item) (c : ascii) : bool :=
  match i with
  | Range lo hi => (ord lo <=? ord c)%nat && (ord c <=? ord hi)%nat
  | Single c' => bool_decide (c = c')
  end.

Definition atom_matches (a : atom) (c : ascii) : bool :=
  match a with
  | Dot => negb (bool_decide (c = newline))
  | Chr c' => bool_decide (c = c')
  | Set_ items => existsb (λ i, set_item_matches i c) items
  end.

(** Without [re.MULTILINE], [$] matches at the end of the string and just
    before a newline that is the last character of the string. *)
Definition at_end (s : string) : bool :=
  bool_decide (s = "") || bool_decide (s = String newline "").

(** [a*] followed by the rest of the pattern [k]: the rest matches here,
    or [a] matches one character and the star goes on.  Every number of
    repetitions is tried, so the answer does not depend on greediness. *)
Fixpoint star (a : atom) (k : bool → string → bool)
    (start : bool) (s : string) : bool :=
  k start s
  || match s with
     | String c s' => atom_matches a c && star a k false s'
     | EmptyString => false
     end.

(** Does the pattern [re] match a prefix of [s]?  [start] tells whether
    [s] is the whole subject, for [^]. *)
Fixpoint match_here (re : list item) (start : bool) (s : string) : bool :=
  match re with
  | [] => true
  | Bol :: re' => start && match_here re' start s
  | Eol :: re' => at_end s && match_here re' start s
  | One a :: re' =>
      match s with
      | String c s' => atom_matches a c && match_here re' false s'
      | EmptyString => false
      end
  | Star a :: re' => star a (match_here re') start s
  end.

(** [re.match(pattern, s) is not None] *)
Definition re_match (pattern : list item) (s : string) : bool :=
  match_here pattern true s.

(** [r'^[a-zA-Z][a-zA-Z0-9+\-\.]*:.*[#/=]$'] *)
Definition namespace_pattern : list item :=
  [ Bol;
    One (Set_ [Range "a" "z"; Range "A" "Z"]);
    Star (Set_ [Range "a" "z"; Range "A" "Z"; Range "0" "9";
                Single "+"; Single "-"; Single "."]);
    One (Chr ":");
    Star Dot;
    One (Set_ [Single "#"; Single "/"; Single "="]);
    Eol ]%char.

(** *** [NamespaceIRIGenerator] *)

Module NamespaceIRIGenerator.

(** The generator's own attributes.  [self.provider] is a reference to
    an object that other code may also hold and change between calls, so
    [generate_id] runs on the pair of the generator and the provider as
    it is at the time of the call. *)
Record t := mk {
  _namespace : string;
  _counter_cache : gmap string nat;
}.

Definition init (namespace : string) : result t :=
  if negb (re_match namespace_pattern namespace)
  then Raise ValueError
  else Ok {| _namespace := namespace; _counter_cache := ∅ |}.

(** The [namespace] property. *)
Definition namespace (g : t) : string := _namespace g.

(** The candidate built at the head of the loop body. *)
Definition iri (namespace proposal : string) (counter : nat) : string :=
  if int_bool counter || negb (str_bool proposal)
  then namespace ++ proposal ++ (if str_bool proposal then "_" else "")
         ++ format_04d counter
  else namespace ++ proposal.

Section Generate.
Context `{AbstractObjectProvider P}.

(** [while True: ...] with [fuel] iterations; [None] when they do not
    suffice. *)
Fixpoint probe (fuel : nat) (proposal : string) (counter : nat)
    (g : t) (provider : P) : option ((t * P) * result string) :=
  match fuel with
  | O => None
  | S fuel' =>
      let iri := iri (_namespace g) proposal counter in
      match get_identifiable iri provider with
      | (provider', Raise KeyError) =>
          Some (({| _namespace := _namespace g;
                    _counter_cache :=
                      <[proposal := counter]> (_counter_cache g) |},
                 provider'),
                Ok iri)
      | (provider', Raise e) => Some ((g, provider'), Raise e)
      | (provider', Ok _) => probe fuel' proposal (counter + 1) g provider'
      end
  end.

Definition generate_id (fuel : nat) (proposal : option string)
    (g : t) (provider : P) : option ((t * P) * result string) :=
  let proposal := default "" proposal in
  let proposal := _quote_iri_segment proposal in
  let counter := default 0 (_counter_cache g !! proposal) in
  probe fuel proposal counter g provider.

End Generate.

End NamespaceIRIGenerator.

(** ** The name-keyed container *)

Module NameKeyedContainer.

(** A [Referable] as a method receives it: its identity and its short
    name. *)
Record Referable := mkReferable { ref : loc; id_short : string }.

(** Modelled from the spec: the class [NamespaceSet] is used by
    [test/model/test_base.py] but its implementation is missing.  The
    container has an owner and keeps its elements by short name (spec 3
    and 4.1). *)
Record t := mk { owner : loc; _backend : gmap string loc }.

(** Modelled from the spec: the [parent] attribute of every element, the
    part of the heap the missing methods of [NamespaceSet] write to.  An
    element without an entry has no parent. *)
Definition parents := gmap loc loc.

(** Modelled from the spec: the missing [NamespaceSet.add].  Spec 4.1:
    "fails with DuplicateKey if an element with the same short name
    already exists in this container.  Otherwise inserts, sets the
    element's owning-container back-reference"; spec 3: "insertion into a
    second container is disallowed while still attached to the first",
    with the back-reference "set to the container's owner".  The spec
    names no exception for an element that is still attached;
    [ValueError] stands for it. *)
Definition add (e : Referable) : M (parents * t) unit :=
  λ '(h, c),
    if bool_decide (is_Some (_backend c !! id_short e))
    then ((h, c), Raise KeyError)
    else if bool_decide (is_Some (h !! ref e))
    then ((h, c), Raise ValueError)
    else ((<[ref e := owner c]> h,
           {| owner := owner c;
              _backend := <[id_short e := ref e]> (_backend c) |}),
          Ok ()).

(** Modelled from the spec: the missing [NamespaceSet.__contains__].
    The test expects an element with the name of a member not to be a
    member itself, so membership compares identities. *)
Definition __contains__ (e : Referable) (c : t) : bool :=
  py_is (_backend c !! id_short e) (ref e).

(** Modelled from the spec: the [parent] attribute of an element. *)
Definition parent (e : Referable) (h : parents) : option loc := h !! ref e.

End NameKeyedContainer.

(** ** [aas/adapter/_generic.py]

    The dicts that give every member of an enumeration the string it is
    serialized as.  The enumerations are defined in [aas.model], which is
    not part of the excerpt; each is given here with the members the
    dicts name. *)

Module generic.

Module ModelingKind.
Inductive t := TEMPLATE | INSTANCE.
#[global] Instance eq_dec : EqDecision t.
Proof. solve_decision. Defined.
End ModelingKind.

Module AssetKind.
Inductive t := TYPE | INSTANCE.
#[global] Instance eq_dec : EqDecision t.
Proof. solve_decision. Defined.
End AssetKind.

Module KeyElements.
Inductive t := ASSET | ASSET_ADMINISTRATION_SHELL | CONCEPT_DESCRIPTION
  | SUBMODEL | ANNOTATED_RELATIONSHIP_ELEMENT | BASIC_EVENT | BLOB
  | CAPABILITY | CONCEPT_DICTIONARY | DATA_ELEMENT | ENTITY | EVENT | FILE
  | MULTI_LANGUAGE_PROPERTY | OPERATION | PROPERTY | RANGE
  | REFERENCE_ELEMENT | RELATIONSHIP_ELEMENT | SUBMODEL_ELEMENT
  | SUBMODEL_ELEMENT_COLLECTION | VIEW | GLOBAL_REFERENCE
  | FRAGMENT_REFERENCE.
#[global] Instance eq_dec : EqDecision t.
Proof. solve_decision. Defined.
End KeyElements.

Module KeyType.
Inductive t := CUSTOM | IRDI | IRI | IDSHORT | FRAGMENT_ID.
#[global] Instance eq_dec : EqDecision t.
Proof. solve_decision. Defined.
End KeyType.

Module IdentifierType.
Inductive t := CUSTOM | IRDI | IRI.
#[global] Instance eq_dec : EqDecision t.
Proof. solve_decision. Defined.
End IdentifierType.

Module EntityType.
Inductive t := CO_MANAGED_ENTITY | SELF_MANAGED_ENTITY.
#[global] Instance eq_dec : EqDecision t.
Proof. solve_decision. Defined.
End EntityType.

Module IEC61360DataType.
Inductive t := DATE | STRING | STRING_TRANSLATABLE | REAL_MEASURE
  | REAL_COUNT | REAL_CURRENCY | BOOLEAN | URL | RATIONAL | RATIONAL_MEASURE
  | TIME | TIMESTAMP.
#[global] Instance eq_dec : EqDecision t.
Proof. solve_decision. Defined.
End IEC61360DataType.

Module IEC61360LevelType.
Inductive t := MIN | MAX | NOM | TYP.
#[global] Instance eq_dec : EqDecision t.
Proof. solve_decision. Defined.
End IEC61360LevelType.

Definition MODELING_KIND : list (ModelingKind.t * string) :=
  [ (ModelingKind.TEMPLATE, "Template");
    (ModelingKind.INSTANCE, "Instance") ].

Definition ASSET_KIND : list (AssetKind.t * string) :=
  [ (AssetKind.TYPE, "Type");
    (AssetKind.INSTANCE, "Instance") ].

Definition KEY_ELEMENTS : list (KeyElements.t * string) :=
  [ (KeyElements.ASSET, "Asset");
    (KeyElements.ASSET_ADMINISTRATION_SHELL, "AssetAdministrationShell");
    (KeyElements.CONCEPT_DESCRIPTION, "ConceptDescription");
    (KeyElements.SUBMODEL, "Submodel");
    (KeyElements.ANNOTATED_RELATIONSHIP_ELEMENT, "AnnotatedRelationshipElement");
    (KeyElements.BASIC_EVENT, "BasicEvent");
    (KeyElements.BLOB, "Blob");
    (KeyElements.CAPABILITY, "Capability");
    (KeyElements.CONCEPT_DICTIONARY, "ConceptDictionary");
    (KeyElements.DATA_ELEMENT, "DataElement");
    (KeyElements.ENTITY, "Entity");
    (KeyElements.EVENT, "Event");
    (KeyElements.FILE, "File");
    (KeyElements.MULTI_LANGUAGE_PROPERTY, "MultiLanguageProperty");
    (KeyElements.OPERATION, "Operation");
    (KeyElements.PROPERTY, "Property");
    (KeyElements.RANGE, "Range");
    (KeyElements.REFERENCE_ELEMENT, "ReferenceElement");
    (KeyElements.RELATIONSHIP_ELEMENT, "RelationshipElement");
    (KeyElements.SUBMODEL_ELEMENT, "SubmodelElement");
    (KeyElements.SUBMODEL_ELEMENT_COLLECTION, "SubmodelElementCollection");
    (KeyElements.VIEW, "View");
    (KeyElements.GLOBAL_REFERENCE, "GlobalReference");
    (KeyElements.FRAGMENT_REFERENCE, "FragmentReference") ].

Definition KEY_TYPES : list (KeyType.t * string) :=
  [ (KeyType.CUSTOM, "Custom");
    (KeyType.IRDI, "IRDI");
    (KeyType.IRI, "IRI");
    (KeyType.IDSHORT, "IdShort");
    (KeyType.FRAGMENT_ID, "FragmentId") ].

Definition IDENTIFIER_TYPES : list (IdentifierType.t * string) :=
  [ (IdentifierType.CUSTOM, "Custom");
    (IdentifierType.IRDI, "IRDI");
    (IdentifierType.IRI, "IRI") ].

Definition ENTITY_TYPES : list (EntityType.t * string) :=
  [ (EntityType.CO_MANAGED_ENTITY, "CoManagedEntity");
    (EntityType.SELF_MANAGED_ENTITY, "SelfManagedEntity") ].

Definition IEC61360_DATA_TYPES : list (IEC61360DataType.t * string) :=
  [ (IEC61360DataType.DATE, "DATE");
    (IEC61360DataType.STRING, "STRING");
    (IEC61360DataType.STRING_TRANSLATABLE, "STRING_TRANSLATABLE");
    (IEC61360DataType.REAL_MEASURE, "REAL_MEASURE");
    (IEC61360DataType.REAL_COUNT, "REAL_COUNT");
    (IEC61360DataType.REAL_CURRENCY, "REAL_CURRENCY");
    (IEC61360DataType.BOOLEAN, "BOOLEAN");
    (IEC61360DataType.URL, "URL");
    (IEC61360DataType.RATIONAL, "RATIONAL");
    (IEC61360DataType.RATIONAL_MEASURE, "RATIONAL_MEASURE");
    (IEC61360DataType.TIME, "TIME");
    (IEC61360DataType.TIMESTAMP, "TIMESTAMP") ].

Definition IEC61360_LEVEL_TYPES : list (IEC61360LevelType.t * string) :=
  [ (IEC61360LevelType.MIN, "Min");
    (IEC61360LevelType.MAX, "Max");
    (IEC61360LevelType.NOM, "Nom");
    (IEC61360LevelType.TYP, "Typ") ].

(** [table[member]] *)
Definition serialize {E} `{EqDecision E} (table : list (E * string)) (member : E)
    : option string :=
  snd <$> List.find (λ kv, bool_decide (kv.1 = member)) table.

(** The way back, to state that a table can be inverted: the first member
    that is serialized as [text]. *)
Definition deserialize {E} (table : list (E * string)) (text : string)
    : option E :=
  fst <$> List.find (λ kv, bool_decide (kv.2 = text)) table.

(** A table can be inverted: it lists no member twice, gives no string to
    two members, and a string leads back to the member it was given to. *)
Definition invertible {E} `{EqDecision E} (table : list (E * string)) : Prop :=
  NoDup table.*1 ∧ NoDup table.*2
  ∧ ∀ member text,
      serialize table member = Some text ↔ deserialize table text = Some member.

End generic.

(** * The spec's words and the examples

    Definitions that follow the spec rather than the source, and the
    concrete objects of the examples. *)

Section Provider_outcomes.
Context `{AbstractObjectProvider P}.

(** A provider misses when its lookup raises [KeyError]. *)
Definition misses (identifier : string) (p : P) : Prop :=
  (get_identifiable identifier p).2 = Raise KeyError.

End Provider_outcomes.

(** The state of the generator after [self._counter_cache[q] = c]. *)
Definition cached (q : string) (c : nat) (g : NamespaceIRIGenerator.t)
    : NamespaceIRIGenerator.t :=
  {| NamespaceIRIGenerator._namespace := NamespaceIRIGenerator._namespace g;
     NamespaceIRIGenerator._counter_cache :=
       <[q := c]> (NamespaceIRIGenerator._counter_cache g) |}.

(** The sanitization in the spec's words: percent-encode the reserved and
    unsafe characters, strip the ASCII control characters (0x00 to 0x1f and
    0x7f), keep every other character. *)
Definition is_ascii_control (c : ascii) : bool :=
  (ord c <=? 0x1f)%nat || Nat.eqb (ord c) 0x7f.

Definition percent_encoding (c : ascii) : string :=
  String "%" (String (hex_digit (ord c / 16))
                (String (hex_digit (ord c mod 16)) "")).

Definition spec_quote_character (c : ascii) : string :=
  if bool_decide (c ∈ quoted_characters) then percent_encoding c
  else if is_ascii_control c then ""
  else String c "".

Fixpoint spec_quote (s : string) : string :=
  match s with
  | EmptyString => ""
  | String c s' => spec_quote_character c ++ spec_quote s'
  end.

(** 0x1f, the last control character below the space. *)
Definition unit_separator : ascii := ascii_of_nat 0x1f.

Fixpoint occurs (c : ascii) (s : string) : bool :=
  match s with
  | EmptyString => false
  | String c' s' => bool_decide (c' = c) || occurs c s'
  end.

(** What the table does to one character. *)
Definition quote_character (c : ascii) : string :=
  match _iri_segment_quote_table !! ord c with
  | Some (Some replacement) => replacement
  | Some None => ""
  | None => String c ""
  end.

(** Concrete stores and objects for the instances below. *)
Definition motor_a : Identifiable := {| self := 1%positive; id := "motor" |}.
Definition motor_b : Identifiable := {| self := 2%positive; id := "motor" |}.
Definition pump : Identifiable := {| self := 3%positive; id := "pump" |}.
Definition store_motor_a : DictObjectStore.t :=
  {| DictObjectStore._backend := {[ "motor" := 1%positive ]} |}.
Definition store_pump_motor_a : DictObjectStore.t :=
  {| DictObjectStore._backend :=
       <[ "pump" := 3%positive ]> {[ "motor" := 1%positive ]} |}.

(** The spec's example: provider A misses, provider B holds ["x"]. *)
Definition provider_A : DictObjectStore.t := DictObjectStore.empty.
Definition provider_B : DictObjectStore.t :=
  {| DictObjectStore._backend := {[ "x" := 7%positive ]} |}.
Definition multiplexer_AB : ObjectProviderMultiplexer.t DictObjectStore.t :=
  ObjectProviderMultiplexer.init (Some [provider_A; provider_B]).

(** The spec's example: the namespace ["https://example.com/ids/"], the
    proposal ["motor"], and the stores and generator states the calls go
    through. *)
Definition example_namespace : string := "https://example.com/ids/".

Definition example_generator : NamespaceIRIGenerator.t :=
  {| NamespaceIRIGenerator._namespace := example_namespace;
     NamespaceIRIGenerator._counter_cache := ∅ |}.

(** The generator after the first and after the second call. *)
Definition generator_after_first : NamespaceIRIGenerator.t :=
  cached "motor" 0 example_generator.
Definition generator_after_second : NamespaceIRIGenerator.t :=
  cached "motor" 1 generator_after_first.

(** [store.add(obj)] for a new object [o] with [obj.id = identifier]. *)
Definition register (identifier : string) (o : loc) (s : DictObjectStore.t)
    : DictObjectStore.t :=
  (DictObjectStore.add {| self := o; id := identifier |} s).1.

Definition store_motor : DictObjectStore.t :=
  register "https://example.com/ids/motor" 11%positive DictObjectStore.empty.
Definition store_motor_0000 : DictObjectStore.t :=
  register "https://example.com/ids/motor_0000" 12%positive store_motor.
Definition store_motor_0001 : DictObjectStore.t :=
  register "https://example.com/ids/motor_0001" 13%positive store_motor.

(** The namespace condition in the spec's words: a scheme (a letter, then
    letters, digits, [+], [-] or [.]) followed by [:], and the string ends
    in [#], [/] or [=]. *)
Definition is_letter (c : ascii) : bool :=
  ((ord "a" <=? ord c)%nat && (ord c <=? ord "z")%nat)
  || ((ord "A" <=? ord c)%nat && (ord c <=? ord "Z")%nat).

Definition is_scheme_character (c : ascii) : bool :=
  is_letter c
  || ((ord "0" <=? ord c)%nat && (ord c <=? ord "9")%nat)
  || bool_decide (c = "+"%char) || bool_decide (c = "-"%char)
  || bool_decide (c = "."%char).

Definition is_terminator (c : ascii) : bool :=
  bool_decide (c = "#"%char) || bool_decide (c = "/"%char)
  || bool_decide (c = "="%char).

(** The rest of a scheme up to and including its [:]. *)
Fixpoint scheme_tail (s : string) : bool :=
  match s with
  | EmptyString => false
  | String c s' =>
      if bool_decide (c = ":"%char) then true
      else is_scheme_character c && scheme_tail s'
  end.

Definition scheme_qualified (s : string) : bool :=
  match s with
  | EmptyString => false
  | String c s' => is_letter c && scheme_tail s'
  end.

Fixpoint ends_in_terminator (s : string) : bool :=
  match s with
  | EmptyString => false
  | String c EmptyString => is_terminator c
  | String _ s' => ends_in_terminator s'
  end.

Definition spec_namespace_ok (s : string) : bool :=
  scheme_qualified s && ends_in_terminator s.

(** The example namespace followed by a line feed. *)
Definition namespace_with_newline : string :=
  example_namespace ++ String newline "".

(** The elements of the test: two properties named ["Prop1"]. *)
Definition prop1 : NameKeyedContainer.Referable :=
  {| NameKeyedContainer.ref := 21%positive;
     NameKeyedContainer.id_short := "Prop1" |}.
Definition prop1alt : NameKeyedContainer.Referable :=
  {| NameKeyedContainer.ref := 22%positive;
     NameKeyedContainer.id_short := "Prop1" |}.
Definition set1 : NameKeyedContainer.t :=
  {| NameKeyedContainer.owner := 20%positive;
     NameKeyedContainer._backend := ∅ |}.
Definition set1_with_prop1 : NameKeyedContainer.t :=
  {| NameKeyedContainer.owner := 20%positive;
     NameKeyedContainer._backend := {[ "Prop1" := 21%positive ]} |}.
Definition prop1_owned : NameKeyedContainer.parents :=
  {[ 21%positive := 20%positive ]}.

(** The number a string of decimal digits stands for, leading zeros
    allowed; [None] for the empty string and for a string with another
    character. *)
Definition decimal_value (s : string) : option nat :=
  Nat.of_uint <$> NilZero.uint_of_string s.

(** A character without an entry in the translation table. *)
Definition unquoted (c : ascii) : bool :=
  bool_decide (_iri_segment_quote_table !! ord c = None).

Fixpoint string_forall (f : ascii → bool) (s : string) : bool :=
  match s with
  | EmptyString => true
  | String c s' => f c && string_forall f s'
  end.

(** [s] without the line feed that ends it, if one does. *)
Fixpoint chomp (s : string) : string :=
  match s with
  | EmptyString => ""
  | String c s' =>
      if bool_decide (c = newline) && bool_decide (s' = "") then ""
      else String c (chomp s')
  end.

(** A [dict] with the motor, and one with the motor and then the pump. *)
Definition ordered_motor_a : OrderedStore.t :=
  {| OrderedStore._backend := [("motor", 1%positive)] |}.
Definition ordered_motor_a_pump : OrderedStore.t :=
  {| OrderedStore._backend := [("motor", 1%positive); ("pump", 3%positive)] |}.

(** * Properties *)

(** ** Methods in general *)

Lemma for_each_app {St X} (body : X → M St unit) (xs ys : list X) (s : St) :
  for_each body (xs ++ ys) s =
    match for_each body xs s with
    | (s', Ok _) => for_each body ys s'
    | (s', Raise e) => (s', Raise e)
    end.
Proof.
  revert s. induction xs as [|x xs IH]; intros s; simpl.
  - reflexivity.
  - unfold bind. destruct (body x s) as [s1 [[]|e]]; [apply IH|reflexivity].
Qed.

Lemma py_is_true (o : option loc) (x : loc) : py_is o x = true ↔ o = Some x.
Proof.
  destruct o as [y|]; simpl; [|split; discriminate].
  rewrite bool_decide_eq_true. split; congruence.
Qed.

Lemma py_is_false (o : option loc) (x : loc) : py_is o x = false ↔ o ≠ Some x.
Proof.
  rewrite <- not_true_iff_false, py_is_true. reflexivity.
Qed.

(** ** [DictObjectStore] *)

Section DictObjectStore_facts.
Import DictObjectStore.
Implicit Types (s : t) (x : Identifiable).

Lemma store_eta s : {| _backend := _backend s |} = s.
Proof. by destruct s. Qed.

(** The three outcomes of [add], by what the store holds under [x.id]. *)
Lemma add_fresh s x :
  _backend s !! id x = None →
  add x s = ({| _backend := <[id x := self x]> (_backend s) |}, Ok ()).
Proof. intros E. unfold add. rewrite E. reflexivity. Qed.

Lemma add_same s x :
  _backend s !! id x = Some (self x) → add x s = (s, Ok ()).
Proof.
  intros E. unfold add, py_is. rewrite E.
  rewrite (bool_decide_eq_true_2 (self x = self x)) by done.
  rewrite andb_false_r, insert_id by done. apply (f_equal (λ s, (s, _))), store_eta.
Qed.

Lemma add_other s x (y : loc) :
  _backend s !! id x = Some y → y ≠ self x → add x s = (s, Raise KeyError).
Proof.
  intros E Hne. unfold add, py_is. rewrite E.
  rewrite bool_decide_eq_true_2 by eauto.
  by rewrite bool_decide_eq_false_2.
Qed.

Lemma add_cases s x :
  (_backend s !! id x = None
   ∧ add x s = ({| _backend := <[id x := self x]> (_backend s) |}, Ok ()))
  ∨ (_backend s !! id x = Some (self x) ∧ add x s = (s, Ok ()))
  ∨ (∃ y, _backend s !! id x = Some y ∧ y ≠ self x
          ∧ add x s = (s, Raise KeyError)).
Proof.
  destruct (_backend s !! id x) as [y|] eqn:E.
  - destruct (decide (y = self x)) as [->|Hne].
    + right; left. eauto using add_same.
    + right; right. eauto using add_other.
  - left. eauto using add_fresh.
Qed.

(** A successful [add] keeps every entry the store had. *)
Lemma add_ok_preserves s s' x k (v : loc) :
  add x s = (s', Ok ()) → _backend s !! k = Some v → _backend s' !! k = Some v.
Proof.
  intros Hadd Hk.
  destruct (add_cases s x) as [[E Hs]|[[E Hs]|(y & E & _ & Hs)]];
    rewrite Hs in Hadd; simplify_eq; simpl; [|done].
  rewrite lookup_insert_ne; [done|]. intros <-. congruence.
Qed.

Lemma add_ok_lookup s s' x :
  add x s = (s', Ok ()) → _backend s' !! id x = Some (self x).
Proof.
  intros Hadd.
  destruct (add_cases s x) as [[E Hs]|[[E Hs]|(y & E & _ & Hs)]];
    rewrite Hs in Hadd; simplify_eq; simpl; [|done].
  apply lookup_insert_eq.
Qed.

Lemma update_ok_preserves xs : ∀ s s' k (v : loc),
  update xs s = (s', Ok ()) → _backend s !! k = Some v →
  _backend s' !! k = Some v.
Proof.
  induction xs as [|x xs IH]; intros s s' k v; unfold update; simpl.
  - unfold ret. intros [= <-]. done.
  - unfold bind. destruct (add x s) as [s1 [[]|e]] eqn:Hadd; [|discriminate].
    intros Hrest Hk. eapply IH; [exact Hrest|].
    eapply add_ok_preserves; eauto.
Qed.

Lemma update_ok_members xs : ∀ s s' y,
  update xs s = (s', Ok ()) → y ∈ xs →
  __contains__ (PyIdentifiable y) s' = true.
Proof.
  induction xs as [|x xs IH]; intros s s' y; unfold update; simpl.
  - intros _ Hin. by apply elem_of_nil in Hin.
  - unfold bind. destruct (add x s) as [s1 [[]|e]] eqn:Hadd; [|discriminate].
    intros Hrest Hin. apply elem_of_cons in Hin as [->|Hin].
    + apply py_is_true. eapply update_ok_preserves; [exact Hrest|].
      eapply add_ok_lookup; eauto.
    + eapply IH; eauto.
Qed.

End DictObjectStore_facts.

Section DictObjectStore_claims.
Import DictObjectStore.
Implicit Types (s : t) (x obj : Identifiable).

(** What [get_identifiable] answers, by what the store holds. *)
Lemma get_identifiable_Some s k (v : loc) :
  _backend s !! k = Some v → get_identifiable k s = (s, Ok v).
Proof. intros E. unfold get_identifiable. by rewrite E. Qed.

Lemma get_identifiable_None s k :
  _backend s !! k = None → get_identifiable k s = (s, Raise KeyError).
Proof. intros E. unfold get_identifiable. by rewrite E. Qed.

(** [get_identifiable] never writes to the store. *)
Lemma get_identifiable_read_only s k : (get_identifiable k s).1 = s.
Proof. unfold get_identifiable. by destruct (_backend s !! k). Qed.

Lemma discard_held s obj :
  _backend s !! id obj = Some (self obj) →
  discard obj s = ({| _backend := delete (id obj) (_backend s) |}, Ok ()).
Proof.
  intros E. unfold discard.
  by rewrite (proj2 (py_is_true _ _) E).
Qed.

Lemma discard_not_held s obj :
  _backend s !! id obj ≠ Some (self obj) → discard obj s = (s, Ok ()).
Proof.
  intros E. unfold discard.
  by rewrite (proj2 (py_is_false _ _) E).
Qed.

(** C1. [add x] raises [KeyError] (DuplicateKey) exactly when the store
    maps [x.id] to an object other than [x], and then leaves the store as
    it is; when the store holds [x] itself under [x.id] the call returns
    normally and the store, hence its length, is unchanged, so a second
    [add] of the same instance is idempotent; in every case without a
    different occupant the call returns normally, [x] is stored under
    [x.id] and no other key changes. *)
Theorem add_duplicate_key_iff s x :
  ((add x s).2 = Raise KeyError
     ↔ ∃ y : loc, _backend s !! id x = Some y ∧ y ≠ self x)
  ∧ ((add x s).2 = Raise KeyError → (add x s).1 = s)
  ∧ (_backend s !! id x = Some (self x) →
       add x s = (s, Ok ()) ∧ __len__ (add x s).1 = __len__ s)
  ∧ (∀ s', add x s = (s', Ok ()) →
       add x s' = (s', Ok ()) ∧ __len__ (add x s').1 = __len__ s')
  ∧ (¬ (∃ y : loc, _backend s !! id x = Some y ∧ y ≠ self x) →
       (add x s).2 = Ok ()
       ∧ get_identifiable (id x) (add x s).1 = ((add x s).1, Ok (self x))
       ∧ ∀ k, k ≠ id x → _backend (add x s).1 !! k = _backend s !! k).
Proof.
  destruct (add_cases s x) as [[E Hs]|[[E Hs]|(y & E & Hne & Hs)]];
    rewrite Hs; simpl.
  - split_and!.
    + split; [discriminate|]. intros (y & Hy & _). congruence.
    + discriminate.
    + congruence.
    + intros s' [= <-]. rewrite add_same by (simpl; apply lookup_insert_eq).
      done.
    + intros _. split_and!; [done| |].
      * apply get_identifiable_Some; simpl. apply lookup_insert_eq.
      * intros k Hk. by rewrite lookup_insert_ne.
  - split_and!.
    + split; [discriminate|]. intros (y & Hy & Hne). congruence.
    + discriminate.
    + done.
    + intros s' [= <-]. rewrite add_same by done. done.
    + intros _. split_and!; [done| |done].
      by apply get_identifiable_Some.
  - split_and!.
    + split; [eauto|done].
    + done.
    + congruence.
    + discriminate.
    + intros Hno. destruct Hno. eauto.
Qed.

(** C4. [add obj] succeeds whenever no other object sits under [obj.id],
    and immediately after a successful [add obj], [get_identifiable
    obj.id] returns [obj] itself; after [discard obj] on a store that
    holds [obj], [get_identifiable obj.id] raises [KeyError] (NotFound);
    [discard] never raises, deletes the entry under [obj.id] when the
    store maps it to [obj] itself, and otherwise leaves the store
    unchanged. *)
Theorem add_get_discard_round_trip s obj :
  ((_backend s !! id obj = None ∨ _backend s !! id obj = Some (self obj)) →
     (add obj s).2 = Ok ()
     ∧ get_identifiable (id obj) (add obj s).1
       = ((add obj s).1, Ok (self obj)))
  ∧ (∀ s', add obj s = (s', Ok ()) →
     get_identifiable (id obj) s' = (s', Ok (self obj)))
  ∧ (__contains__ (PyIdentifiable obj) s = true →
     get_identifiable (id obj) (discard obj s).1
       = ((discard obj s).1, Raise KeyError))
  ∧ (discard obj s).2 = Ok ()
  ∧ (_backend s !! id obj = Some (self obj) →
     (discard obj s).1 = {| _backend := delete (id obj) (_backend s) |})
  ∧ (_backend s !! id obj ≠ Some (self obj) → (discard obj s).1 = s).
Proof.
  split_and!.
  - intros [E|E].
    + rewrite add_fresh by done. split; [done|].
      apply get_identifiable_Some; simpl. apply lookup_insert_eq.
    + rewrite add_same by done. split; [done|].
      by apply get_identifiable_Some.
  - intros s' Hadd. apply get_identifiable_Some. eauto using add_ok_lookup.
  - intros Hin%py_is_true. rewrite discard_held by done. simpl.
    apply get_identifiable_None; simpl. apply lookup_delete_eq.
  - unfold discard. by destruct (py_is _ _).
  - intros E. by rewrite discard_held.
  - intros E. by rewrite discard_not_held.
Qed.

(** C8. [x in s] takes a string or an object: for a string it holds
    exactly when some object is stored under that identifier, for an
    [Identifiable] exactly when the store maps its [id] to that very
    object, so another object with the same [id] is not a member; any
    other value is not a member. *)
Theorem contains_str_or_instance s :
  (∀ k : string, __contains__ (PyStr k) s = true
     ↔ ∃ o : loc, get_identifiable k s = (s, Ok o))
  ∧ (∀ x, __contains__ (PyIdentifiable x) s = true
     ↔ _backend s !! id x = Some (self x))
  ∧ (∀ x y : Identifiable, id y = id x → self y ≠ self x →
     __contains__ (PyIdentifiable x) s = true →
     __contains__ (PyIdentifiable y) s = false
     ∧ __contains__ (PyStr (id y)) s = true)
  ∧ __contains__ PyOther s = false.
Proof.
  split_and!.
  - intros k. simpl. rewrite bool_decide_eq_true. split.
    + intros [o Ho]. exists o. by apply get_identifiable_Some.
    + intros [o Ho]. unfold get_identifiable in Ho.
      destruct (_backend s !! k); [eauto|discriminate].
  - intros x. apply py_is_true.
  - intros x y Hid Hne Hx. simpl in *. apply py_is_true in Hx. split.
    + apply py_is_false. rewrite Hid, Hx. congruence.
    + apply bool_decide_eq_true. rewrite Hid, Hx. eauto.
  - done.
Qed.

(** C10. [update xs] adds the elements of [xs] in order.  When the
    elements of [before] are added without error and adding the next
    element [x] raises [KeyError], the call raises [KeyError] and leaves
    the store as the adds of [before] made it: every element of
    [before] is a member and every entry of the store before the call is
    still there; nothing is rolled back. *)
Theorem update_not_atomic s (before after : list Identifiable) x s1 :
  update before s = (s1, Ok ()) →
  add x s1 = (s1, Raise KeyError) →
  update (before ++ x :: after) s = (s1, Raise KeyError)
  ∧ (∀ y, y ∈ before → __contains__ (PyIdentifiable y) s1 = true)
  ∧ (∀ k (v : loc), _backend s !! k = Some v → _backend s1 !! k = Some v)
  ∧ update [] s = (s, Ok ())
  ∧ (∀ y ys, update (y :: ys) s =
       match add y s with
       | (s', Ok _) => update ys s'
       | (s', Raise e) => (s', Raise e)
       end).
Proof.
  intros Hbefore Hx. split_and!.
  - unfold update in *. rewrite for_each_app, Hbefore. simpl.
    unfold bind. by rewrite Hx.
  - intros y Hy. eapply update_ok_members; eauto.
  - intros k v Hk. eapply update_ok_preserves; eauto.
  - done.
  - intros y ys. unfold update. simpl. unfold bind.
    by destruct (add y s) as [s' [[]|e]].
Qed.

End DictObjectStore_claims.

Lemma add_duplicate_key_iff_witness :
  DictObjectStore.add motor_a store_motor_a = (store_motor_a, Ok ())
  ∧ DictObjectStore.__len__ (DictObjectStore.add motor_a store_motor_a).1
    = DictObjectStore.__len__ store_motor_a.
Proof.
  apply (add_duplicate_key_iff store_motor_a motor_a).
  vm_compute. reflexivity.
Defined.

Lemma add_get_discard_round_trip_witness :
  ((DictObjectStore.add pump store_motor_a).2 = Ok ()
   ∧ DictObjectStore.get_identifiable "pump"
       (DictObjectStore.add pump store_motor_a).1
     = ((DictObjectStore.add pump store_motor_a).1, Ok 3%positive))
  ∧ DictObjectStore.get_identifiable "pump" store_pump_motor_a
    = (store_pump_motor_a, Ok 3%positive)
  ∧ DictObjectStore.get_identifiable "motor"
      (DictObjectStore.discard motor_a store_motor_a).1
    = ((DictObjectStore.discard motor_a store_motor_a).1, Raise KeyError).
Proof.
  split; [|split].
  - apply (proj1 (add_get_discard_round_trip store_motor_a pump)).
    left. vm_compute. reflexivity.
  - apply (proj1 (proj2 (add_get_discard_round_trip store_motor_a pump))
             store_pump_motor_a).
    vm_compute. reflexivity.
  - apply (proj1 (proj2 (proj2
             (add_get_discard_round_trip store_motor_a motor_a)))).
    vm_compute. reflexivity.
Defined.

Lemma contains_str_or_instance_witness :
  DictObjectStore.__contains__ (DictObjectStore.PyIdentifiable motor_b)
    store_motor_a = false
  ∧ DictObjectStore.__contains__ (DictObjectStore.PyStr "motor")
      store_motor_a = true.
Proof.
  apply (contains_str_or_instance store_motor_a) with (x := motor_a).
  - reflexivity.
  - discriminate.
  - vm_compute. reflexivity.
Defined.

Lemma update_not_atomic_witness :
  DictObjectStore.update ([pump] ++ motor_b :: []) store_motor_a
    = (store_pump_motor_a, Raise KeyError)
  ∧ store_pump_motor_a ≠ store_motor_a.
Proof.
  split.
  - apply (update_not_atomic store_motor_a [pump] [] motor_b store_pump_motor_a).
    + vm_compute. reflexivity.
    + vm_compute. reflexivity.
  - intros E. apply (f_equal (λ s, DictObjectStore._backend s !! "pump")) in E.
    vm_compute in E. discriminate.
Defined.

(** ** [ObjectProviderMultiplexer] *)

Section Multiplexer_claims.
Context `{AbstractObjectProvider P}.
Implicit Types (ps : list P) (m : ObjectProviderMultiplexer.t P).

Import ObjectProviderMultiplexer (lookup_loop).

Lemma lookup_loop_cons identifier (p : P) ps :
  lookup_loop identifier (p :: ps) =
    if decide ((get_identifiable identifier p).2 = Raise KeyError)
    then ((get_identifiable identifier p).1 :: (lookup_loop identifier ps).1,
          (lookup_loop identifier ps).2)
    else ((get_identifiable identifier p).1 :: ps,
          (get_identifiable identifier p).2).
Proof.
  cbn [lookup_loop].
  destruct (get_identifiable identifier p) as [p' [v|[]]]; cbn [fst snd].
  - by rewrite decide_False.
  - rewrite decide_True by done. by destruct (lookup_loop identifier ps).
  - by rewrite decide_False.
Qed.

Lemma lookup_loop_first_hit identifier ps : ∀ (i : nat) (p : P),
  ps !! i = Some p →
  ¬ misses identifier p →
  (∀ (j : nat) (q : P), j < i → ps !! j = Some q → misses identifier q) →
  (lookup_loop identifier ps).2 = (get_identifiable identifier p).2.
Proof.
  induction ps as [|p0 ps IH]; intros i p Hi Hhit Hbefore; [done|].
  rewrite lookup_loop_cons. destruct i as [|i]; simpl in Hi.
  - injection Hi as ->. by rewrite decide_False.
  - rewrite decide_True by (apply (Hbefore 0 p0); [lia|done]). simpl.
    apply (IH i); [done..|].
    intros j q Hj Hq. apply (Hbefore (S j) q); [lia|done].
Qed.

Lemma lookup_loop_all_miss identifier ps :
  (lookup_loop identifier ps).2 = Raise KeyError
    ↔ ∀ p, p ∈ ps → misses identifier p.
Proof.
  induction ps as [|p0 ps IH].
  - split; [|done]. intros _ p Hp. by apply elem_of_nil in Hp.
  - rewrite lookup_loop_cons. case_decide as Hp0; simpl.
    + rewrite IH. split.
      * intros Hall p [->|Hp]%elem_of_cons; auto.
      * intros Hall p Hp. apply Hall. by right.
    + split; [done|]. intros Hall. apply Hall. by left.
Qed.

Lemma lookup_loop_length identifier ps :
  List.length (lookup_loop identifier ps).1 = List.length ps.
Proof.
  induction ps as [|p0 ps IH]; [done|].
  rewrite lookup_loop_cons. case_decide; simpl; by rewrite ?IH.
Qed.

Lemma lookup_loop_read_only identifier ps :
  (∀ p, p ∈ ps → (get_identifiable identifier p).1 = p) →
  (lookup_loop identifier ps).1 = ps.
Proof.
  induction ps as [|p0 ps IH]; intros Hro; [done|].
  rewrite lookup_loop_cons.
  assert ((get_identifiable identifier p0).1 = p0) as -> by (apply Hro; by left).
  case_decide; simpl; [|done].
  rewrite IH; [done|]. intros p Hp. apply Hro. by right.
Qed.

(** C5. The multiplexer answers with the answer of the first provider,
    in list order, that does not raise [KeyError] (NotFound); it raises
    [KeyError] exactly when every provider misses, hence always for an
    empty list; it keeps the number of providers, and when no provider's
    lookup changes that provider, the multiplexer and its providers are
    after the call what they were before. *)
Theorem multiplexer_first_hit m identifier :
  (∀ (i : nat) (p : P),
     ObjectProviderMultiplexer.providers m !! i = Some p →
     ¬ misses identifier p →
     (∀ (j : nat) (q : P), j < i →
        ObjectProviderMultiplexer.providers m !! j = Some q →
        misses identifier q) →
     (ObjectProviderMultiplexer.get_identifiable identifier m).2
       = (get_identifiable identifier p).2)
  ∧ ((ObjectProviderMultiplexer.get_identifiable identifier m).2
       = Raise KeyError
       ↔ ∀ p, p ∈ ObjectProviderMultiplexer.providers m → misses identifier p)
  ∧ (ObjectProviderMultiplexer.providers m = [] →
     (ObjectProviderMultiplexer.get_identifiable identifier m).2
       = Raise KeyError)
  ∧ List.length (ObjectProviderMultiplexer.providers
                   (ObjectProviderMultiplexer.get_identifiable identifier m).1)
      = List.length (ObjectProviderMultiplexer.providers m)
  ∧ ((∀ p, p ∈ ObjectProviderMultiplexer.providers m →
        (get_identifiable identifier p).1 = p) →
     (ObjectProviderMultiplexer.get_identifiable identifier m).1 = m).
Proof.
  destruct m as [ps]. unfold ObjectProviderMultiplexer.get_identifiable.
  simpl. destruct (lookup_loop identifier ps) as [ps' r] eqn:E. simpl.
  assert (r = (lookup_loop identifier ps).2) as -> by by rewrite E.
  assert (ps' = (lookup_loop identifier ps).1) as -> by by rewrite E.
  split_and!.
  - apply lookup_loop_first_hit.
  - apply lookup_loop_all_miss.
  - intros ->. done.
  - apply lookup_loop_length.
  - intros Hro. by rewrite lookup_loop_read_only.
Qed.

End Multiplexer_claims.

Lemma multiplexer_first_hit_witness :
  (ObjectProviderMultiplexer.get_identifiable "x" multiplexer_AB).2 = Ok 7%positive
  ∧ (ObjectProviderMultiplexer.get_identifiable "x" multiplexer_AB).1
    = multiplexer_AB
  ∧ (ObjectProviderMultiplexer.get_identifiable "y" multiplexer_AB).2
    = Raise KeyError.
Proof.
  split_and!.
  - change (Ok 7%positive) with (get_identifiable "x" provider_B).2.
    apply (proj1 (multiplexer_first_hit multiplexer_AB "x") 1 provider_B).
    + reflexivity.
    + unfold misses. vm_compute. discriminate.
    + intros [|j] q Hj Hq; [|lia]. injection Hq as <-. vm_compute. reflexivity.
  - apply (proj2 (proj2 (proj2 (proj2
             (multiplexer_first_hit multiplexer_AB "x"))))).
    intros p _. apply get_identifiable_read_only.
  - apply (proj2 (proj1 (proj2 (multiplexer_first_hit multiplexer_AB "y")))).
    intros p Hp. unfold multiplexer_AB in Hp. simpl in Hp.
    apply elem_of_cons in Hp as [->|Hp]; [vm_compute; reflexivity|].
    apply elem_of_cons in Hp as [->|Hp]; [vm_compute; reflexivity|].
    by apply elem_of_nil in Hp.
Defined.

(** ** [NamespaceIRIGenerator.generate_id] *)

Section Generator_claims.
Context `{AbstractObjectProvider P}.
Import NamespaceIRIGenerator.
Implicit Types (g : t) (provider : P) (q : string) (c n fuel : nat).

Lemma str_bool_true q : str_bool q = true ↔ q ≠ "".
Proof. destruct q; simpl; split; congruence. Qed.

(** The three shapes of a candidate. *)
Lemma iri_plain ns q : q ≠ "" → iri ns q 0 = ns ++ q.
Proof. intros Hq%str_bool_true. unfold iri. simpl. by rewrite Hq. Qed.

Lemma iri_counter ns q c :
  q ≠ "" → c ≠ 0 → iri ns q c = ns ++ q ++ "_" ++ format_04d c.
Proof.
  intros Hq%str_bool_true Hc. unfold iri, int_bool.
  rewrite (proj2 (Nat.eqb_neq c 0) Hc). simpl. by rewrite Hq.
Qed.

Lemma iri_empty ns c : iri ns "" c = ns ++ format_04d c.
Proof. unfold iri. simpl. by rewrite orb_true_r. Qed.

(** The loop: [n] candidates in a row are taken, the next one is free. *)
Lemma probe_first_free n : ∀ fuel q c g provider provider',
  (∀ k, k < n → ∃ v : loc,
     get_identifiable (iri (_namespace g) q (c + k)) provider
       = (provider, Ok v)) →
  get_identifiable (iri (_namespace g) q (c + n)) provider
    = (provider', Raise KeyError) →
  n < fuel →
  probe fuel q c g provider
    = Some ((cached q (c + n) g, provider'), Ok (iri (_namespace g) q (c + n))).
Proof.
  induction n as [|n IH]; intros fuel q c g provider provider' Hhits Hfree Hfuel;
    (destruct fuel as [|fuel]; [lia|]); cbn [probe].
  - rewrite Nat.add_0_r in *. by rewrite Hfree.
  - destruct (Hhits 0) as [v Hv]; [lia|]. rewrite Nat.add_0_r in Hv.
    rewrite Hv. rewrite (IH fuel q (c + 1) g provider provider').
    + by replace (c + 1 + n) with (c + S n) by lia.
    + intros k Hk. destruct (Hhits (S k)) as [w Hw]; [lia|].
      exists w. by replace (c + 1 + k) with (c + S k) by lia.
    + by replace (c + 1 + n) with (c + S n) by lia.
    + lia.
Qed.

(** C2. Every candidate is [namespace + proposal] for counter 0 and a
    non-empty sanitized proposal, [namespace + proposal + "_" + counter]
    with the counter zero-padded to four digits for a non-zero counter
    (and a non-empty sanitized proposal), and [namespace + counter],
    padded alike and without separator, for an empty sanitized proposal.
    Probing starts at the counter cached for the sanitized proposal, 0
    when there is none; when the next [n] candidates are found by the
    provider and the one after them raises [KeyError] (NotFound), then
    [generate_id], given more than [n] iterations, returns that candidate
    and caches its counter, the start plus [n], for the sanitized
    proposal. *)
Theorem generate_id_first_free g provider provider' proposal q c0 n :
  q = _quote_iri_segment (default "" proposal) →
  c0 = default 0 (_counter_cache g !! q) →
  (∀ k, k < n → ∃ v : loc,
     get_identifiable (iri (_namespace g) q (c0 + k)) provider
       = (provider, Ok v)) →
  get_identifiable (iri (_namespace g) q (c0 + n)) provider
    = (provider', Raise KeyError) →
  (∀ fuel, n < fuel →
     generate_id fuel proposal g provider
       = Some ((cached q (c0 + n) g, provider'),
               Ok (iri (_namespace g) q (c0 + n))))
  ∧ (∀ c, (q ≠ "" → c = 0 → iri (_namespace g) q c = _namespace g ++ q)
        ∧ (q ≠ "" → c ≠ 0 →
           iri (_namespace g) q c
             = _namespace g ++ q ++ "_" ++ format_04d c)
        ∧ (q = "" → iri (_namespace g) q c = _namespace g ++ format_04d c))
  ∧ format_04d 0 = "0000" ∧ format_04d 7 = "0007" ∧ format_04d 4321 = "4321".
Proof.
  intros -> -> Hhits Hfree. split_and!; [|intros c; split_and!|done..].
  - intros fuel Hfuel. unfold generate_id. by apply probe_first_free.
  - intros Hq ->. by apply iri_plain.
  - intros Hq Hc. by apply iri_counter.
  - intros ->. apply iri_empty.
Qed.

End Generator_claims.

Lemma generate_id_first_free_witness :
  NamespaceIRIGenerator.generate_id 2 (Some "motor") example_generator store_motor
  = Some ((cached "motor" (0 + 1) example_generator, store_motor),
          Ok (NamespaceIRIGenerator.iri example_namespace "motor" (0 + 1))).
Proof.
  refine (proj1 (generate_id_first_free example_generator store_motor
                   store_motor (Some "motor") "motor" 0 1 _ _ _ _) 2 _).
  - vm_compute. reflexivity.
  - vm_compute. reflexivity.
  - intros k Hk. assert (k = 0) as -> by lia. exists 11%positive.
    vm_compute. reflexivity.
  - vm_compute. reflexivity.
  - lia.
Defined.

(** C3, as the code behaves.  The generator for the namespace
    ["https://example.com/ids/"] is accepted; on an empty store
    [generate_id "motor"] returns [".../motor"]; once that id is
    registered, the second call returns [".../motor_0001"]; with a store
    that holds [".../motor"] and [".../motor_0000"] the next call returns
    [".../motor_0001"] as well, and with [".../motor"] and
    [".../motor_0001"] registered it returns [".../motor_0002"].  One
    iteration more than the number of taken candidates is enough. *)
Theorem generate_id_motor_sequence (fuel : nat) :
  NamespaceIRIGenerator.init example_namespace = Ok example_generator
  ∧ NamespaceIRIGenerator.generate_id (1 + fuel) (Some "motor")
      example_generator DictObjectStore.empty
    = Some ((generator_after_first, DictObjectStore.empty),
            Ok "https://example.com/ids/motor")
  ∧ NamespaceIRIGenerator.generate_id (2 + fuel) (Some "motor")
      generator_after_first store_motor
    = Some ((generator_after_second, store_motor),
            Ok "https://example.com/ids/motor_0001")
  ∧ NamespaceIRIGenerator.generate_id (1 + fuel) (Some "motor")
      generator_after_second store_motor_0000
    = Some ((generator_after_second, store_motor_0000),
            Ok "https://example.com/ids/motor_0001")
  ∧ NamespaceIRIGenerator.generate_id (2 + fuel) (Some "motor")
      generator_after_second store_motor_0001
    = Some ((cached "motor" 2 generator_after_second, store_motor_0001),
            Ok "https://example.com/ids/motor_0002").
Proof.
  split_and!; vm_compute; reflexivity.
Qed.

(** C3, as stated, fails: however many iterations are allowed, the second
    call does not return [".../motor_0000"]. *)
Lemma second_motor_id_is_not_0000 :
  ¬ ∃ fuel st,
      NamespaceIRIGenerator.generate_id fuel (Some "motor")
        generator_after_first store_motor
      = Some (st, Ok "https://example.com/ids/motor_0000").
Proof.
  intros (fuel & st & E). destruct fuel as [|[|fuel]]; vm_compute in E;
    discriminate E.
Qed.

(** ** [_quote_iri_segment] *)

Lemma quote_iri_segment_cons c s :
  _quote_iri_segment (String c s) = quote_character c ++ _quote_iri_segment s.
Proof.
  unfold _quote_iri_segment, quote_character. cbn [translate].
  by destruct (_iri_segment_quote_table !! ord c) as [[r|]|].
Qed.

(** Apart from 0x1f the table is the spec's sanitization. *)
Lemma quote_character_spec c :
  c ≠ unit_separator → quote_character c = spec_quote_character c.
Proof.
  destruct c as [[] [] [] [] [] [] [] []]; intros Hc;
    first [ by vm_compute | by destruct Hc ].
Qed.

Lemma quote_iri_segment_spec s :
  occurs unit_separator s = false → _quote_iri_segment s = spec_quote s.
Proof.
  induction s as [|c s IH]; [done|]. cbn [occurs spec_quote].
  intros [Hc Hs]%orb_false_elim. apply bool_decide_eq_false in Hc.
  by rewrite quote_iri_segment_cons, quote_character_spec, IH.
Qed.

(** The characters the comment of the table leaves out on purpose. *)
Lemma quote_iri_segment_unescaped :
  _quote_iri_segment "/?=&#" = "/?=&#".
Proof. by vm_compute. Qed.

(** C6.  The control character 0x1f is not deleted: a segment made of it
    comes back unchanged, although the control characters next to it (0x00,
    0x1e, 0x7f) are deleted and the spec's sanitization deletes 0x1f as
    well. *)
Theorem quote_keeps_unit_separator :
  is_ascii_control unit_separator = true
  ∧ _quote_iri_segment (String unit_separator "") = String unit_separator ""
  ∧ spec_quote (String unit_separator "") = ""
  ∧ _quote_iri_segment (String "a" (String unit_separator "b"))
    = String "a" (String unit_separator "b")
  ∧ _quote_iri_segment (String (ascii_of_nat 0x1e) "") = ""
  ∧ _quote_iri_segment (String (ascii_of_nat 0) "") = ""
  ∧ _quote_iri_segment (String (ascii_of_nat 0x7f) "") = "".
Proof. split_and!; by vm_compute. Qed.

(** ** [NamespaceIRIGenerator.__init__] *)

Lemma atom_letter c :
  atom_matches (Set_ [Range "a" "z"; Range "A" "Z"]) c = is_letter c.
Proof. unfold atom_matches, is_letter. simpl. by rewrite orb_false_r. Qed.

Lemma atom_scheme_character c :
  atom_matches (Set_ [Range "a" "z"; Range "A" "Z"; Range "0" "9";
                      Single "+"; Single "-"; Single "."]) c
  = is_scheme_character c.
Proof.
  unfold atom_matches, is_scheme_character, is_letter. simpl.
  by rewrite orb_false_r, !orb_assoc.
Qed.

Lemma atom_terminator c :
  atom_matches (Set_ [Single "#"; Single "/"; Single "="]) c = is_terminator c.
Proof.
  unfold atom_matches, is_terminator. simpl. by rewrite orb_false_r, !orb_assoc.
Qed.

Lemma at_end_without_newline s :
  occurs newline s = false → at_end s = bool_decide (s = "").
Proof.
  destruct s as [|c s]; [done|]. cbn [occurs].
  intros [Hc _]%orb_false_elim. apply bool_decide_eq_false in Hc.
  unfold at_end. rewrite !bool_decide_eq_false_2; [done|congruence..].
Qed.

(** [.*[#/=]$] on a text without line feed: the text ends in a
    terminator. *)
Lemma match_here_rest s : ∀ start,
  occurs newline s = false →
  match_here [Star Dot; One (Set_ [Single "#"; Single "/"; Single "="]); Eol]
    start s
  = ends_in_terminator s.
Proof.
  induction s as [|c s IH]; intros start; [done|]. cbn [occurs].
  intros [Hc Hs]%orb_false_elim.
  specialize (IH false Hs). cbn [match_here] in IH |- *. cbn [star].
  rewrite IH. cbn [match_here]. rewrite atom_terminator.
  rewrite (at_end_without_newline s Hs). unfold atom_matches. rewrite Hc.
  destruct s as [|c' s]; simpl.
  - by rewrite !andb_true_r, orb_false_r.
  - by rewrite andb_false_r.
Qed.

(** The scheme characters, the colon and the rest. *)
Lemma match_here_scheme_tail s : ∀ start,
  occurs newline s = false →
  match_here
    [Star (Set_ [Range "a" "z"; Range "A" "Z"; Range "0" "9";
                 Single "+"; Single "-"; Single "."]);
     One (Chr ":"); Star Dot;
     One (Set_ [Single "#"; Single "/"; Single "="]); Eol] start s
  = scheme_tail s && ends_in_terminator s.
Proof.
  induction s as [|c s IH]; intros start; [done|]. cbn [occurs].
  intros [Hc Hs]%orb_false_elim.
  specialize (IH false Hs). cbn [match_here] in IH |- *. cbn [star].
  rewrite IH, atom_scheme_character.
  pose proof (match_here_rest s false Hs) as Hrest. cbn [match_here] in Hrest.
  rewrite Hrest. cbn [scheme_tail atom_matches].
  clear Hc. destruct (decide (c = ":"%char)) as [->|Hcolon].
  - rewrite bool_decide_eq_true_2 by done.
    change (is_scheme_character ":") with false. cbn [andb orb].
    destruct s; [done|]. by rewrite orb_false_r.
  - rewrite bool_decide_eq_false_2 by done. cbn [andb orb].
    destruct s as [|c' s]; [by rewrite !andb_false_r|].
    by rewrite andb_assoc.
Qed.

(** On a namespace without line feed the pattern says what the spec
    says. *)
Lemma re_match_namespace_spec s :
  occurs newline s = false →
  re_match namespace_pattern s = spec_namespace_ok s.
Proof.
  destruct s as [|c s]; [done|]. cbn [occurs].
  intros [Hc Hs]%orb_false_elim.
  unfold re_match, namespace_pattern, spec_namespace_ok.
  pose proof (match_here_scheme_tail s false Hs) as Htail.
  cbn [match_here] in Htail |- *. rewrite Htail, atom_letter.
  cbn [andb scheme_qualified].
  destruct s as [|c' s]; [by rewrite !andb_false_r|].
  by rewrite andb_assoc.
Qed.

Lemma init_spec namespace :
  occurs newline namespace = false →
  NamespaceIRIGenerator.init namespace
  = if spec_namespace_ok namespace
    then Ok {| NamespaceIRIGenerator._namespace := namespace;
               NamespaceIRIGenerator._counter_cache := ∅ |}
    else Raise ValueError.
Proof.
  intros Hnl. unfold NamespaceIRIGenerator.init.
  rewrite re_match_namespace_spec by done.
  by destruct (spec_namespace_ok namespace).
Qed.

(** C7.  A namespace that ends in a line feed after a [/] is accepted,
    although it does not end in [#], [/] or [=]: the constructor returns a
    generator holding that string instead of raising [ValueError]
    (InvalidConfig).  The example namespace itself is accepted and stored
    unchanged, and ["not-a-namespace"] is rejected. *)
Theorem init_accepts_trailing_newline :
  NamespaceIRIGenerator.init namespace_with_newline
    = Ok {| NamespaceIRIGenerator._namespace := namespace_with_newline;
            NamespaceIRIGenerator._counter_cache := ∅ |}
  ∧ ends_in_terminator namespace_with_newline = false
  ∧ spec_namespace_ok namespace_with_newline = false
  ∧ NamespaceIRIGenerator.namespace example_generator = example_namespace
  ∧ NamespaceIRIGenerator.init example_namespace = Ok example_generator
  ∧ spec_namespace_ok example_namespace = true
  ∧ NamespaceIRIGenerator.init "not-a-namespace" = Raise ValueError
  ∧ spec_namespace_ok "not-a-namespace" = false.
Proof. split_and!; by vm_compute. Qed.

(** ** The name-keyed container *)

Section NameKeyedContainer_claims.
Import NameKeyedContainer.
Implicit Types (h : parents) (c : t) (e : Referable).

Lemma container_add_fresh h c e :
  _backend c !! id_short e = None → h !! ref e = None →
  add e (h, c)
    = ((<[ref e := owner c]> h,
        {| owner := owner c;
           _backend := <[id_short e := ref e]> (_backend c) |}), Ok ()).
Proof.
  intros Hname Hfree. unfold add. rewrite Hname, Hfree.
  rewrite !bool_decide_eq_false_2; [done|by intros [? ?]..].
Qed.

Lemma container_add_taken h c e :
  is_Some (_backend c !! id_short e) → add e (h, c) = ((h, c), Raise KeyError).
Proof. intros Hname. unfold add. by rewrite bool_decide_eq_true_2. Qed.

Lemma container_add_ok h c e h' c' :
  add e (h, c) = ((h', c'), Ok ()) →
  h' = <[ref e := owner c]> h
  ∧ c' = {| owner := owner c;
            _backend := <[id_short e := ref e]> (_backend c) |}.
Proof.
  unfold add. repeat case_bool_decide; intros [=]. by subst.
Qed.

(** C9.  When [e]'s short name is not used in [C] and [C.add(e)]
    returns normally, [e] is a member of [C], [e.parent] is [C]'s owner,
    and adding any other element with the same short name raises
    [KeyError] (DuplicateKey) and leaves the container and every parent
    reference, [e]'s included, as they were; an element without a parent
    and with an unused name is always accepted. *)
Theorem container_add_member_parent_duplicate h c e h' c' :
  _backend c !! id_short e = None →
  add e (h, c) = ((h', c'), Ok ()) →
  __contains__ e c' = true
  ∧ parent e h' = Some (owner c')
  ∧ owner c' = owner c
  ∧ (∀ e2, ref e2 ≠ ref e → id_short e2 = id_short e →
       add e2 (h', c') = ((h', c'), Raise KeyError)
       ∧ __contains__ e2 c' = false)
  ∧ (h !! ref e = None → (add e (h, c)).2 = Ok ()).
Proof.
  intros Hname [-> ->]%container_add_ok. split_and!.
  - apply py_is_true; simpl. apply lookup_insert_eq.
  - unfold parent; simpl. apply lookup_insert_eq.
  - done.
  - intros e2 Hne Hsame. split.
    + apply container_add_taken; simpl. rewrite Hsame, lookup_insert_eq. eauto.
    + apply py_is_false; simpl. rewrite Hsame, lookup_insert_eq. congruence.
  - intros Hfree. by rewrite container_add_fresh.
Qed.

End NameKeyedContainer_claims.

Lemma container_add_member_parent_duplicate_witness :
  NameKeyedContainer.__contains__ prop1 set1_with_prop1 = true
  ∧ NameKeyedContainer.parent prop1 prop1_owned = Some 20%positive
  ∧ NameKeyedContainer.add prop1alt (prop1_owned, set1_with_prop1)
    = ((prop1_owned, set1_with_prop1), Raise KeyError).
Proof.
  destruct (container_add_member_parent_duplicate
              ∅ set1 prop1 prop1_owned set1_with_prop1)
    as (Hin & Hparent & _ & Hdup & _).
  - vm_compute. reflexivity.
  - vm_compute. reflexivity.
  - split_and!; [exact Hin|exact Hparent|].
    apply (Hdup prop1alt); [discriminate|reflexivity].
Defined.

(** * Further properties of the object store *)

Section DictObjectStore_more.
Import DictObjectStore.
Implicit Types (s : t) (x : Identifiable).

Lemma contains_str_true s k :
  __contains__ (PyStr k) s = true ↔ is_Some (_backend s !! k).
Proof. simpl. apply bool_decide_eq_true. Qed.

(** X2.  [len(store)] grows by one when [add] stores an object under an id that
    was free and shrinks by one when [discard] removes a member; an [add]
    that raises or re-adds, and a [discard] of a non-member, keep it. *)
Theorem len_add_discard s x :
  __len__ (add x s).1
    = (if __contains__ (PyStr (id x)) s then __len__ s else S (__len__ s))
  ∧ __len__ (discard x s).1
    = (if __contains__ (PyIdentifiable x) s then pred (__len__ s)
       else __len__ s).
Proof.
  split.
  - destruct (add_cases s x) as [[E Hs]|[[E Hs]|(y & E & _ & Hs)]];
      rewrite Hs; cbn [fst __contains__]; rewrite E.
    + rewrite bool_decide_eq_false_2 by (by intros [? ?]).
      unfold __len__; simpl. by apply map_size_insert_None.
    + by rewrite bool_decide_eq_true_2 by eauto.
    + by rewrite bool_decide_eq_true_2 by eauto.
  - cbn [__contains__]. destruct (py_is _ _) eqn:E.
    + apply py_is_true in E. rewrite discard_held by done.
      unfold __len__; simpl. by erewrite map_size_delete_Some.
    + apply py_is_false in E. by rewrite discard_not_held.
Qed.

(** X3.  Neither [add x] nor [discard x] touches an entry under another id,
    and [discard] is idempotent. *)
Theorem add_discard_frame s x k :
  k ≠ id x →
  _backend (add x s).1 !! k = _backend s !! k
  ∧ _backend (discard x s).1 !! k = _backend s !! k
  ∧ discard x (discard x s).1 = ((discard x s).1, Ok ()).
Proof.
  intros Hk. split_and!.
  - destruct (add_cases s x) as [[E Hs]|[[E Hs]|(y & E & _ & Hs)]];
      rewrite Hs; simpl; [|done..]. by rewrite lookup_insert_ne.
  - unfold discard. destruct (py_is _ _); simpl; [|done].
    by rewrite lookup_delete_ne.
  - unfold discard at 2 3. destruct (py_is _ _) eqn:E; simpl.
    + apply discard_not_held; simpl. by rewrite lookup_delete_eq.
    + apply py_is_false in E. by apply discard_not_held.
Qed.

Lemma update_ok_criterion xs : ∀ s,
  (update xs s).2 = Ok ()
  ↔ (∀ x (v : loc), x ∈ xs → _backend s !! id x = Some v → v = self x)
    ∧ (∀ x y, x ∈ xs → y ∈ xs → id x = id y → self x = self y).
Proof.
  induction xs as [|x xs IH]; intros s.
  - split; [|done]. intros _. split; intros ? ? Hin; by apply elem_of_nil in Hin.
  - unfold update in *. cbn [for_each]. unfold bind.
    destruct (add_cases s x) as [[E Hs]|[[E Hs]|(y & E & Hne & Hs)]]; rewrite Hs.
    + rewrite IH. cbn [_backend]. split.
      * intros [Hstore Hpair]. split.
        -- intros z v [->|Hz]%elem_of_cons Hv; [congruence|].
           apply (Hstore z v Hz). rewrite lookup_insert_ne; [done|].
           intros Heq. rewrite <- Heq in Hv. congruence.
        -- intros z1 z2 [->|Hz1]%elem_of_cons [->|Hz2]%elem_of_cons Hid;
             [done| | |by apply Hpair].
           ++ apply (Hstore z2 (self x) Hz2).
              rewrite <- Hid. apply lookup_insert_eq.
           ++ symmetry. apply (Hstore z1 (self x) Hz1).
              rewrite Hid. apply lookup_insert_eq.
      * intros [Hstore Hpair]. split.
        -- intros z v Hz Hv. destruct (decide (id x = id z)) as [Heq|Hneq].
           ++ rewrite Heq, lookup_insert_eq in Hv. injection Hv as <-.
              apply Hpair; [by left|by right|done].
           ++ rewrite lookup_insert_ne in Hv by done.
              apply (Hstore z v); [by right|done].
        -- intros z1 z2 Hz1 Hz2. apply Hpair; by right.
    + rewrite IH. split.
      * intros [Hstore Hpair]. split.
        -- intros z v [->|Hz]%elem_of_cons Hv; [congruence|]. by apply (Hstore z v).
        -- intros z1 z2 [->|Hz1]%elem_of_cons [->|Hz2]%elem_of_cons Hid;
             [done| | |by apply Hpair].
           ++ apply (Hstore z2 (self x) Hz2). by rewrite <- Hid.
           ++ symmetry. apply (Hstore z1 (self x) Hz1). by rewrite Hid.
      * intros [Hstore Hpair]. split.
        -- intros z v Hz Hv. apply (Hstore z v); [by right|done].
        -- intros z1 z2 Hz1 Hz2. apply Hpair; by right.
    + cbn [snd]. split; [done|]. intros [Hstore _].
      destruct Hne. apply (Hstore x y); [by left|done].
Qed.

(** X4.  When does [update xs] go through?  Exactly when no element of [xs]
    meets another object under its id, neither in the store nor among the
    elements of [xs] themselves. *)
Theorem update_ok_iff xs s :
  (update xs s).2 = Ok ()
  ↔ (∀ x (v : loc), x ∈ xs → _backend s !! id x = Some v → v = self x)
    ∧ (∀ x y, x ∈ xs → y ∈ xs → id x = id y → self x = self y).
Proof. apply update_ok_criterion. Qed.

(** X5.  After an [update] that went through, the store holds the elements of
    [xs] under their ids and, under every other id, what it held before. *)
Theorem update_ok_lookup xs : ∀ s s' k,
  update xs s = (s', Ok ()) →
  _backend s' !! k
  = match list_find (λ x, id x = k) xs with
    | Some (_, x) => Some (self x)
    | None => _backend s !! k
    end.
Proof.
  induction xs as [|x xs IH]; intros s s' k; unfold update in *; cbn [for_each].
  - unfold ret. by intros [= <-].
  - unfold bind. destruct (add x s) as [s1 [[]|e]] eqn:Hadd; [|done].
    intros Hrest. cbn [list_find]. case_decide as Hk.
    + simpl. subst k. eapply (update_ok_preserves xs); [exact Hrest|].
      by eapply add_ok_lookup.
    + rewrite (IH s1 s' k Hrest).
      destruct (list_find _ xs) as [[i z]|]; simpl; [done|].
      destruct (add_cases s x) as [[E Hs]|[[E Hs]|(y & E & _ & Hs)]];
        rewrite Hs in Hadd; simplify_eq; simpl; [|done].
      by rewrite lookup_insert_ne.
Qed.

(** X6.  [DictObjectStore(objects)] raises [KeyError] exactly when two of the
    objects share an id without being the same object; otherwise every
    object is a member of the new store. *)
Theorem init_ok_iff (objects : list Identifiable) :
  ((init objects).2 = Ok ()
   ↔ ∀ x y, x ∈ objects → y ∈ objects → id x = id y → self x = self y)
  ∧ ((init objects).2 ≠ Ok () → (init objects).2 = Raise KeyError)
  ∧ ((init objects).2 = Ok () →
     ∀ x, x ∈ objects → __contains__ (PyIdentifiable x) (init objects).1 = true).
Proof.
  unfold init. change (for_each add objects) with (update objects). split_and!.
  - rewrite update_ok_criterion. split; [by intros [_ ?]|]. intros Hpair.
    split; [|done]. intros x v _ Hv. simpl in Hv. by rewrite lookup_empty in Hv.
  - generalize empty. induction objects as [|x xs IH]; intros s; [done|].
    unfold update in *. cbn [for_each]. unfold bind.
    destruct (add_cases s x) as [[E Hs]|[[E Hs]|(y & E & _ & Hs)]];
      rewrite Hs; [apply IH..|done].
  - intros Hok x Hx. destruct (update objects empty) as [s' r] eqn:E.
    simpl in Hok. subst r. by eapply update_ok_members.
Qed.

End DictObjectStore_more.

Lemma add_discard_frame_witness :
  DictObjectStore._backend (DictObjectStore.add pump store_motor_a).1 !! "motor"
    = DictObjectStore._backend store_motor_a !! "motor".
Proof.
  apply (add_discard_frame store_motor_a pump "motor"). discriminate.
Defined.

Lemma update_ok_iff_witness :
  (DictObjectStore.update [pump; motor_a; pump] store_motor_a).2 = Ok ().
Proof.
  apply (update_ok_iff [pump; motor_a; pump] store_motor_a). split.
  - intros x v Hx Hv.
    repeat (apply elem_of_cons in Hx as [->|Hx]);
      [vm_compute in Hv; discriminate Hv
      |vm_compute in Hv; by injection Hv as <-
      |vm_compute in Hv; discriminate Hv
      |by apply elem_of_nil in Hx].
  - intros x y Hx Hy Hid.
    repeat (apply elem_of_cons in Hx as [->|Hx]);
      repeat (apply elem_of_cons in Hy as [->|Hy]);
      first [reflexivity | discriminate Hid
            | by apply elem_of_nil in Hx | by apply elem_of_nil in Hy].
Defined.

Lemma update_ok_lookup_witness :
  DictObjectStore._backend store_pump_motor_a !! "pump" = Some 3%positive.
Proof.
  refine (update_ok_lookup [pump] store_motor_a store_pump_motor_a "pump" _).
  vm_compute. reflexivity.
Defined.

Lemma init_ok_iff_witness :
  (DictObjectStore.init [motor_a; motor_b]).2 = Raise KeyError.
Proof.
  apply (proj1 (proj2 (init_ok_iff [motor_a; motor_b]))).
  vm_compute. discriminate.
Defined.

(** * Further properties of providers and the multiplexer *)

Section Provider_more.
Context `{AbstractObjectProvider P}.
Implicit Types (p : P) (ps qs : list P) (default : option loc).
Import ObjectProviderMultiplexer (lookup_loop).

(** X7.  [get] turns a miss into the default and nothing else: it never raises
    [KeyError], answers with the object on a hit, with [default] on a miss,
    passes any other exception on, and leaves the provider as
    [get_identifiable] leaves it. *)
Theorem get_never_misses identifier default p :
  (get identifier default p).2 ≠ Raise KeyError
  ∧ (∀ v : loc, (get_identifiable identifier p).2 = Ok v →
       (get identifier default p).2 = Ok (Some v))
  ∧ (misses identifier p → (get identifier default p).2 = Ok default)
  ∧ (∀ e, e ≠ KeyError → (get_identifiable identifier p).2 = Raise e →
       (get identifier default p).2 = Raise e)
  ∧ (get identifier default p).1 = (get_identifiable identifier p).1.
Proof.
  unfold get, misses.
  destruct (get_identifiable identifier p) as [p' [v|[]]]; simpl;
    split_and!; try done; try congruence; intros e He [= <-]; done.
Qed.

Lemma lookup_loop_app identifier ps qs :
  (lookup_loop identifier (ps ++ qs)).2
  = match (lookup_loop identifier ps).2 with
    | Raise KeyError => (lookup_loop identifier qs).2
    | r => r
    end.
Proof.
  induction ps as [|p ps IH]; [done|].
  rewrite <- app_comm_cons, !lookup_loop_cons.
  case_decide as Hp; cbn [snd]; [done|].
  by destruct (get_identifiable identifier p).2 as [v|[]].
Qed.

Lemma multiplexer_result identifier (m : ObjectProviderMultiplexer.t P) :
  (ObjectProviderMultiplexer.get_identifiable identifier m).2
  = (lookup_loop identifier (ObjectProviderMultiplexer.providers m)).2.
Proof.
  unfold ObjectProviderMultiplexer.get_identifiable.
  by destruct (lookup_loop identifier (ObjectProviderMultiplexer.providers m)).
Qed.

(** X8.  A multiplexer over the providers [ps ++ qs] answers as the one over
    [ps] and, only when all of [ps] miss, as the one over [qs]: providers
    added at the end never hide what earlier ones find. *)
Theorem multiplexer_append identifier ps qs :
  (ObjectProviderMultiplexer.get_identifiable identifier
     {| ObjectProviderMultiplexer.providers := (ps ++ qs)%list |}).2
  = match (ObjectProviderMultiplexer.get_identifiable identifier
             {| ObjectProviderMultiplexer.providers := ps |}).2 with
    | Raise KeyError =>
        (ObjectProviderMultiplexer.get_identifiable identifier
           {| ObjectProviderMultiplexer.providers := qs |}).2
    | r => r
    end.
Proof. rewrite !multiplexer_result. apply lookup_loop_app. Qed.

(** X10.  [get] on a multiplexer gives the default exactly as the lookup raises
    [KeyError]: when every provider misses. *)
Theorem multiplexer_get_default identifier default
    (m : ObjectProviderMultiplexer.t P) :
  (∀ p, p ∈ ObjectProviderMultiplexer.providers m → misses identifier p) →
  (get identifier default m).2 = Ok default.
Proof.
  intros Hall%lookup_loop_all_miss. rewrite <- multiplexer_result in Hall.
  unfold get.
  change (get_identifiable identifier m)
    with (ObjectProviderMultiplexer.get_identifiable identifier m).
  destruct (ObjectProviderMultiplexer.get_identifiable identifier m) as [m' r].
  simpl in Hall. by subst r.
Qed.

End Provider_more.

Section Multiplexer_nested.
Context `{AbstractObjectProvider P}.
Import ObjectProviderMultiplexer (lookup_loop).

(** X9.  A multiplexer of multiplexers answers as one multiplexer over all
    their providers, taken in order. *)
Theorem multiplexer_flatten identifier
    (ms : list (ObjectProviderMultiplexer.t P)) :
  (ObjectProviderMultiplexer.get_identifiable identifier
     {| ObjectProviderMultiplexer.providers := ms |}).2
  = (ObjectProviderMultiplexer.get_identifiable identifier
       {| ObjectProviderMultiplexer.providers :=
            mjoin (ObjectProviderMultiplexer.providers <$> ms) |}).2.
Proof.
  rewrite !multiplexer_result. cbn [ObjectProviderMultiplexer.providers].
  induction ms as [|m ms IH]; [done|].
  rewrite fmap_cons, lookup_loop_cons. cbn [mjoin list_join].
  rewrite lookup_loop_app.
  change (get_identifiable identifier m)
    with (ObjectProviderMultiplexer.get_identifiable identifier m).
  rewrite multiplexer_result.
  case_decide as Hm; cbn [snd].
  - by rewrite Hm.
  - by destruct (lookup_loop identifier
                   (ObjectProviderMultiplexer.providers m)).2 as [v|[]].
Qed.

End Multiplexer_nested.

Lemma get_never_misses_witness :
  (get "x" (Some 9%positive) provider_A).2 = Ok (Some 9%positive)
  ∧ (get "x" None provider_B).2 = Ok (Some 7%positive).
Proof.
  split.
  - apply (get_never_misses "x" (Some 9%positive) provider_A).
    vm_compute. reflexivity.
  - apply (proj1 (proj2 (get_never_misses "x" None provider_B))).
    vm_compute. reflexivity.
Defined.

Lemma multiplexer_get_default_witness :
  (get "y" (Some 9%positive) multiplexer_AB).2 = Ok (Some 9%positive).
Proof.
  apply (multiplexer_get_default "y" (Some 9%positive) multiplexer_AB).
  intros p Hp. unfold multiplexer_AB in Hp. simpl in Hp.
  apply elem_of_cons in Hp as [->|Hp]; [vm_compute; reflexivity|].
  apply elem_of_cons in Hp as [->|Hp]; [vm_compute; reflexivity|].
  by apply elem_of_nil in Hp.
Defined.

(** * Further properties of identifier generation *)

(** ** The counter suffix *)

Lemma append_inv_head (p s t : string) : p ++ s = p ++ t → s = t.
Proof. induction p as [|c p IH]; simpl; [done|]. intros [= ?]. auto. Qed.

Lemma append_empty_r (s : string) : s ++ "" = s.
Proof.
  induction s as [|c s IH]; [done|].
  change (String c (s ++ "") = String c s). by rewrite IH.
Qed.

Lemma append_length (s t : string) :
  String.length (s ++ t) = String.length s + String.length t.
Proof. induction s as [|c s IH]; simpl; [done|]. by rewrite IH. Qed.

Lemma zeros_length k : String.length (zeros k) = k.
Proof. induction k as [|k IH]; simpl; [done|]. by rewrite IH. Qed.

Lemma decimal_value_zeros k s :
  s ≠ "" → decimal_value (zeros k ++ s) = decimal_value s.
Proof.
  intros Hs. induction k as [|k IH]; [done|].
  rewrite <- IH. unfold decimal_value.
  change (zeros (S k) ++ s) with (String "0" (zeros k ++ s)).
  assert (NilZero.uint_of_string (zeros k ++ s)
          = NilEmpty.uint_of_string (zeros k ++ s)) as ->.
  { destruct (zeros k ++ s) eqn:E; [|done].
    destruct k; simpl in E; [done|discriminate]. }
  cbn [NilZero.uint_of_string NilEmpty.uint_of_string].
  by destruct (NilEmpty.uint_of_string (zeros k ++ s)) as [d|].
Qed.

Lemma decimal_value_digits n :
  decimal_value (NilZero.string_of_uint (Nat.to_uint n)) = Some n.
Proof.
  unfold decimal_value. destruct (Nat.to_uint n) as [| | | | | | | | | |] eqn:E;
    try (rewrite NilZero.usu by done; simpl; f_equal;
         rewrite <- E; apply DecimalNat.Unsigned.of_to).
  pose proof (DecimalNat.Unsigned.of_to n) as Hn. rewrite E in Hn.
  simpl in Hn. by subst n.
Qed.

Lemma digits_nonempty n : NilZero.string_of_uint (Nat.to_uint n) ≠ "".
Proof.
  intros E. pose proof (decimal_value_digits n) as Hn. by rewrite E in Hn.
Qed.

Lemma digits_below_10000 n :
  n < 10000 →
  (String.length (NilZero.string_of_uint (Nat.to_uint n)) ≤ 4)%nat.
Proof.
  intros Hn.
  assert (forallb (λ n, (String.length
                           (NilZero.string_of_uint (Nat.to_uint n)) <=? 4)%nat)
            (seq 0 10000) = true) as Hall by (vm_compute; reflexivity).
  rewrite forallb_forall in Hall. apply Nat.leb_le, Hall, in_seq. lia.
Qed.

Lemma decimal_value_format_04d n : decimal_value (format_04d n) = Some n.
Proof.
  unfold format_04d, zero_pad.
  rewrite decimal_value_zeros by apply digits_nonempty.
  apply decimal_value_digits.
Qed.

Lemma format_04d_inj n1 n2 : format_04d n1 = format_04d n2 → n1 = n2.
Proof.
  intros E. pose proof (decimal_value_format_04d n1) as H1.
  rewrite E, decimal_value_format_04d in H1. congruence.
Qed.

(** X11.  The counter suffix can be read back: the digits of [format_04d n]
    stand for [n]; the suffix has at least four characters, exactly four
    below 10000, and is the bare number once that has four digits or
    more. *)
Theorem format_04d_round_trip n :
  decimal_value (format_04d n) = Some n
  ∧ (4 ≤ String.length (format_04d n))%nat
  ∧ (n < 10000 → String.length (format_04d n) = 4)
  ∧ ((4 ≤ String.length (NilZero.string_of_uint (Nat.to_uint n)))%nat →
     format_04d n = NilZero.string_of_uint (Nat.to_uint n)).
Proof.
  split_and!; [apply decimal_value_format_04d|unfold format_04d, zero_pad..].
  - rewrite append_length, zeros_length. lia.
  - intros Hn%digits_below_10000. rewrite append_length, zeros_length. lia.
  - intros Hlen.
    by replace (4 - _) with 0 by lia.
Qed.

Lemma format_04d_round_trip_witness :
  String.length (format_04d 42) = 4.
Proof.
  apply (format_04d_round_trip 42).
  apply Nat.ltb_lt. vm_compute. reflexivity.
Defined.

(** ** Candidates *)

Lemma iri_inj ns q c1 c2 :
  NamespaceIRIGenerator.iri ns q c1 = NamespaceIRIGenerator.iri ns q c2 →
  c1 = c2.
Proof.
  destruct q as [|a q'].
  - rewrite !iri_empty. intros E%append_inv_head. by apply format_04d_inj.
  - assert (String a q' ≠ "") as Hq by done.
    destruct c1 as [|c1], c2 as [|c2]; [done| | |].
    + rewrite iri_plain, iri_counter by done.
      intros E%append_inv_head%(f_equal String.length).
      rewrite append_length in E. simpl in E. lia.
    + rewrite iri_plain, iri_counter by done.
      intros E%append_inv_head%(f_equal String.length).
      rewrite append_length in E. simpl in E. lia.
    + rewrite !iri_counter by done.
      intros E%append_inv_head%append_inv_head. injection E as E.
      by apply format_04d_inj.
Qed.

(** X12.  Different counters give different candidates, whatever the namespace
    and the proposal: the probe never tries an identifier twice. *)
Theorem iri_distinct ns q c1 c2 :
  c1 ≠ c2 →
  NamespaceIRIGenerator.iri ns q c1 ≠ NamespaceIRIGenerator.iri ns q c2.
Proof. intros Hc E. by apply Hc, (iri_inj ns q). Qed.

Lemma iri_distinct_witness :
  NamespaceIRIGenerator.iri example_namespace "motor" 0
  ≠ NamespaceIRIGenerator.iri example_namespace "motor" 1.
Proof.
  apply (iri_distinct example_namespace "motor" 0 1). discriminate.
Defined.

(** Every candidate starts with the namespace followed by the sanitized
    proposal. *)
Lemma iri_prefix ns q c :
  ∃ suffix, NamespaceIRIGenerator.iri ns q c = ns ++ q ++ suffix.
Proof.
  unfold NamespaceIRIGenerator.iri.
  destruct (int_bool c || negb (str_bool q)); [eauto|].
  exists "". by rewrite append_empty_r.
Qed.

Section Generator_more.
Context `{AbstractObjectProvider P}.
Import NamespaceIRIGenerator.
Implicit Types (g : t) (provider : P) (q : string) (c n fuel : nat).

Lemma probe_sound fuel : ∀ q c g provider g' provider' r,
  (∀ i, (get_identifiable i provider).1 = provider) →
  probe fuel q c g provider = Some ((g', provider'), r) →
  provider' = provider
  ∧ match r with
    | Ok i =>
        misses i provider
        ∧ ∃ c', (c ≤ c')%nat ∧ i = iri (_namespace g) q c' ∧ g' = cached q c' g
                ∧ ∀ k, (c ≤ k < c')%nat → ¬ misses (iri (_namespace g) q k) provider
    | Raise e => e ≠ KeyError ∧ g' = g
    end.
Proof.
  induction fuel as [|fuel IH]; intros q c g provider g' provider' r Hro;
    [done|]. cbn [probe].
  pose proof (Hro (iri (_namespace g) q c)) as Hstate.
  destruct (get_identifiable (iri (_namespace g) q c) provider)
    as [p1 [v|[]]] eqn:E; simpl in Hstate; subst p1.
  - intros Hrest. destruct (IH _ _ _ _ _ _ _ Hro Hrest) as [-> Hr].
    split; [done|]. destruct r as [i|e]; [|done].
    destruct Hr as (Hmiss & c' & Hc' & -> & -> & Hbefore).
    split; [done|]. exists c'. split_and!; [lia|done..|].
    intros k Hk. destruct (decide (k = c)) as [->|Hne].
    + unfold misses. by rewrite E.
    + apply Hbefore. lia.
  - intros [= <- <- <-]. split; [done|]. split; [unfold misses; by rewrite E|].
    exists c. split_and!; [lia|done..|]. intros k Hk. lia.
  - intros [= <- <- <-]. done.
Qed.

(** X13.  Whatever [generate_id] returns is right, for a provider whose lookups
    do not change it: a returned identifier is one the provider does not
    know, it is the candidate of the first such counter from the cached
    one on, it starts with the namespace and the sanitized proposal, and
    that counter is cached while the namespace and the counters of other
    proposals stay; an exception is never [KeyError] and leaves the
    generator unchanged.  The provider is unchanged in both cases. *)
Theorem generate_id_sound fuel proposal g provider g' provider' r :
  (∀ i, (get_identifiable i provider).1 = provider) →
  generate_id fuel proposal g provider = Some ((g', provider'), r) →
  provider' = provider
  ∧ match r with
    | Ok i =>
        misses i provider
        ∧ (∃ suffix,
             i = _namespace g ++ _quote_iri_segment (default "" proposal)
                   ++ suffix)
        ∧ ∃ c, (default 0 (_counter_cache g
                             !! _quote_iri_segment (default "" proposal)) ≤ c)%nat
               ∧ i = iri (_namespace g)
                       (_quote_iri_segment (default "" proposal)) c
               ∧ _namespace g' = _namespace g
               ∧ _counter_cache g'
                 = <[_quote_iri_segment (default "" proposal) := c]>
                     (_counter_cache g)
               ∧ ∀ k, (default 0 (_counter_cache g
                            !! _quote_iri_segment (default "" proposal)) ≤ k < c)%nat →
                      ¬ misses (iri (_namespace g)
                                  (_quote_iri_segment (default "" proposal)) k)
                          provider
    | Raise e => e ≠ KeyError ∧ g' = g
    end.
Proof.
  intros Hro Hgen. unfold generate_id in Hgen.
  destruct (probe_sound _ _ _ _ _ _ _ _ Hro Hgen) as [-> Hr].
  split; [done|]. destruct r as [i|e]; [|done].
  destruct Hr as (Hmiss & c & Hc & -> & -> & Hbefore).
  split_and!; [done|apply iri_prefix|]. exists c. by split_and!.
Qed.

End Generator_more.

(** ** Generation against a [DictObjectStore] *)

Section Generator_store.
Import NamespaceIRIGenerator.
Implicit Types (g : t) (s : DictObjectStore.t) (q : string) (c n fuel : nat).

(** Among more candidates than the store has entries one is free. *)
Lemma free_candidate (m : gmap string loc) (f : nat → string) :
  (∀ a b, f a = f b → a = b) →
  ∃ k, (k ≤ size m)%nat ∧ m !! f k = None.
Proof.
  intros Hinj.
  destruct (decide (Forall (λ k, is_Some (m !! f k)) (seq 0 (S (size m)))))
    as [Hall|Hex].
  - exfalso.
    assert (NoDup (f <$> seq 0 (S (size m)))) as Hnd.
    { apply NoDup_fmap_2_strong; [|apply NoDup_seq]. intros a b _ _. apply Hinj. }
    assert (list_to_set (f <$> seq 0 (S (size m))) ⊆ dom m) as Hsub.
    { intros i Hi. apply elem_of_list_to_set, list_elem_of_fmap in Hi
        as (k & -> & Hk). apply elem_of_dom.
      rewrite Forall_forall in Hall. by apply Hall. }
    apply subseteq_size in Hsub.
    rewrite size_list_to_set, length_fmap, length_seq, size_dom in Hsub by done.
    lia.
  - apply not_Forall_Exists in Hex; [|intros k; apply _].
    apply Exists_exists in Hex as (k & Hk & Hnone).
    apply elem_of_seq in Hk. exists k. split; [lia|].
    by apply eq_None_not_Some.
Qed.

Lemma probe_store_total fuel : ∀ q c g s k,
  k < fuel →
  DictObjectStore._backend s !! iri (_namespace g) q (c + k) = None →
  ∃ n, (n ≤ k)%nat
       ∧ probe fuel q c g s
         = Some ((cached q (c + n) g, s), Ok (iri (_namespace g) q (c + n))).
Proof.
  induction fuel as [|fuel IH]; intros q c g s k Hk Hfree; [lia|].
  cbn [probe].
  change (get_identifiable (iri (_namespace g) q c) s)
    with (DictObjectStore.get_identifiable (iri (_namespace g) q c) s).
  destruct (DictObjectStore._backend s !! iri (_namespace g) q c) as [v|] eqn:E.
  - rewrite (get_identifiable_Some s _ v E).
    destruct k as [|k]; [rewrite Nat.add_0_r in Hfree; congruence|].
    destruct (IH q (c + 1) g s k) as (n & Hn & Hprobe); [lia| |].
    { by replace (c + 1 + k) with (c + S k) by lia. }
    exists (S n). split; [lia|].
    by replace (c + S n) with (c + 1 + n) by lia.
  - rewrite (get_identifiable_None s _ E). exists 0. split; [lia|].
    by rewrite Nat.add_0_r.
Qed.

(** X14.  Against a [DictObjectStore] the loop ends: with one iteration more
    than the store has entries, [generate_id] returns an identifier,
    leaves the store alone, and advances the cached counter by at most the
    number of entries. *)
Theorem generate_id_store_terminates fuel proposal g s :
  DictObjectStore.__len__ s < fuel →
  ∃ n, (n ≤ DictObjectStore.__len__ s)%nat
       ∧ generate_id fuel proposal g s
         = Some ((cached (_quote_iri_segment (default "" proposal))
                    (default 0 (_counter_cache g
                       !! _quote_iri_segment (default "" proposal)) + n) g,
                  s),
                 Ok (iri (_namespace g)
                       (_quote_iri_segment (default "" proposal))
                       (default 0 (_counter_cache g
                          !! _quote_iri_segment (default "" proposal)) + n))).
Proof.
  intros Hfuel. unfold generate_id.
  set (q := _quote_iri_segment (default "" proposal)).
  set (c := default 0 (_counter_cache g !! q)).
  destruct (free_candidate (DictObjectStore._backend s)
              (λ k, iri (_namespace g) q (c + k))) as (k & Hk & Hfree).
  { intros a b E%iri_inj. lia. }
  unfold DictObjectStore.__len__ in *.
  destruct (probe_store_total fuel q c g s k) as (n & Hn & Hprobe);
    [lia|done|].
  exists n. split; [lia|done].
Qed.

(** X15.  A generated identifier is free in the store, so registering an object
    under it cannot raise, and the next identifier generated, for whatever
    proposal, is a different one. *)
Theorem generate_id_then_add fuel proposal g s g' s' i (o : loc) :
  generate_id fuel proposal g s = Some ((g', s'), Ok i) →
  s' = s
  ∧ DictObjectStore.__contains__ (DictObjectStore.PyStr i) s = false
  ∧ DictObjectStore.add {| self := o; id := i |} s
    = (register i o s, Ok ())
  ∧ ∀ fuel2 proposal2 g2 s2 i2,
      generate_id fuel2 proposal2 g' (register i o s) = Some ((g2, s2), Ok i2) →
      i2 ≠ i.
Proof.
  intros Hgen.
  assert (∀ s0 j, (get_identifiable j s0).1 = s0) as Hro
    by (intros s0 j; apply get_identifiable_read_only).
  unfold generate_id in Hgen.
  destruct (probe_sound _ _ _ _ _ _ _ _ (Hro s) Hgen) as [-> [Hmiss _]].
  assert (DictObjectStore._backend s !! i = None) as Hfree.
  { unfold misses in Hmiss.
    change (get_identifiable i s) with (DictObjectStore.get_identifiable i s)
      in Hmiss. unfold DictObjectStore.get_identifiable in Hmiss.
    by destruct (DictObjectStore._backend s !! i). }
  assert (DictObjectStore.add {| self := o; id := i |} s
          = (register i o s, Ok ())) as Hadd.
  { unfold register. by rewrite add_fresh. }
  split_and!; [done| |done|].
  - simpl. rewrite Hfree. by apply bool_decide_eq_false_2, is_Some_None.
  - intros fuel2 proposal2 g2 s2 i2 Hgen2 ->.
    unfold generate_id in Hgen2.
    destruct (probe_sound _ _ _ _ _ _ _ _ (Hro _) Hgen2) as [_ [Hmiss2 _]].
    unfold misses in Hmiss2.
    change (get_identifiable i (register i o s))
      with (DictObjectStore.get_identifiable i (register i o s)) in Hmiss2.
    rewrite (get_identifiable_Some _ i o) in Hmiss2; [done|].
    eapply add_ok_lookup with (x := {| self := o; id := i |}). exact Hadd.
Qed.

End Generator_store.

Lemma generate_id_sound_witness :
  misses "https://example.com/ids/motor_0001" store_motor.
Proof.
  destruct (generate_id_sound 2 (Some "motor") example_generator store_motor
              (cached "motor" 1 example_generator) store_motor
              (Ok "https://example.com/ids/motor_0001"))
    as [_ [Hmiss _]].
  - intros i. apply get_identifiable_read_only.
  - vm_compute. reflexivity.
  - exact Hmiss.
Defined.

Lemma generate_id_store_terminates_witness :
  ∃ n, (n ≤ DictObjectStore.__len__ store_motor)%nat
       ∧ NamespaceIRIGenerator.generate_id 2 (Some "motor")
           example_generator store_motor
         = Some ((cached (_quote_iri_segment "motor")
                    (default 0 (NamespaceIRIGenerator._counter_cache
                                  example_generator
                                  !! _quote_iri_segment "motor") + n)
                    example_generator, store_motor),
                 Ok (NamespaceIRIGenerator.iri example_namespace
                       (_quote_iri_segment "motor")
                       (default 0 (NamespaceIRIGenerator._counter_cache
                                     example_generator
                                     !! _quote_iri_segment "motor") + n))).
Proof.
  apply (generate_id_store_terminates 2 (Some "motor") example_generator
           store_motor).
  vm_compute. lia.
Defined.

Lemma generate_id_then_add_witness :
  DictObjectStore.add {| self := 11%positive;
                         id := "https://example.com/ids/motor" |}
    DictObjectStore.empty
  = (register "https://example.com/ids/motor" 11%positive
       DictObjectStore.empty, Ok ()).
Proof.
  apply (generate_id_then_add 1 (Some "motor") example_generator
           DictObjectStore.empty generator_after_first DictObjectStore.empty
           "https://example.com/ids/motor" 11%positive).
  vm_compute. reflexivity.
Defined.

(** * Further properties of [_quote_iri_segment] *)

Lemma append_cons c (s t : string) : String c s ++ t = String c (s ++ t).
Proof. reflexivity. Qed.

Lemma append_assoc (s t u : string) : (s ++ t) ++ u = s ++ t ++ u.
Proof.
  induction s as [|c s IH]; [done|]. by rewrite !append_cons, IH.
Qed.

Lemma string_forall_app f (s t : string) :
  string_forall f (s ++ t) = string_forall f s && string_forall f t.
Proof.
  induction s as [|c s IH]; [done|].
  rewrite append_cons. cbn [string_forall]. by rewrite IH, andb_assoc.
Qed.

Lemma occurs_app c (s t : string) :
  occurs c (s ++ t) = occurs c s || occurs c t.
Proof.
  induction s as [|c' s IH]; [done|].
  rewrite append_cons. cbn [occurs]. by rewrite IH, orb_assoc.
Qed.

(** A replacement holds no character that has an entry itself, and is at
    most three characters long. *)
Lemma quote_character_clean c :
  string_forall unquoted (quote_character c) = true
  ∧ (String.length (quote_character c) ≤ 3)%nat.
Proof.
  destruct c as [[] [] [] [] [] [] [] []]; split;
    first [ by vm_compute | vm_compute; lia ].
Qed.

Lemma quote_character_unquoted c :
  unquoted c = true → quote_character c = String c "".
Proof.
  unfold unquoted, quote_character. intros E%bool_decide_eq_true. by rewrite E.
Qed.

(** Which characters have an entry: the listed ones, the code points 0 to
    30 and 127. *)
Lemma unquoted_false_iff c :
  unquoted c = false
  ↔ c ∈ quoted_characters ∨ ord c < 31 ∨ ord c = 127.
Proof.
  assert (unquoted c
          = negb (bool_decide (c ∈ quoted_characters)
                  || (ord c <? 31)%nat || Nat.eqb (ord c) 127)) as ->.
  { destruct c as [[] [] [] [] [] [] [] []]; by vm_compute. }
  rewrite negb_false_iff, !orb_true_iff, bool_decide_eq_true,
    Nat.ltb_lt, Nat.eqb_eq. tauto.
Qed.

(** X16.  Sanitizing goes character by character. *)
Theorem quote_iri_segment_app (s t : string) :
  _quote_iri_segment (s ++ t) = _quote_iri_segment s ++ _quote_iri_segment t.
Proof.
  induction s as [|c s IH]; [done|].
  by rewrite append_cons, !quote_iri_segment_cons, IH, append_assoc.
Qed.

Lemma quote_iri_segment_clean s :
  string_forall unquoted (_quote_iri_segment s) = true.
Proof.
  induction s as [|c s IH]; [done|].
  rewrite quote_iri_segment_cons, string_forall_app, IH.
  by rewrite (proj1 (quote_character_clean c)).
Qed.

Lemma quote_iri_segment_fixed s :
  string_forall unquoted s = true → _quote_iri_segment s = s.
Proof.
  induction s as [|c s IH]; [done|]. cbn [string_forall].
  intros [Hc Hs]%andb_true_iff.
  by rewrite quote_iri_segment_cons, quote_character_unquoted, IH.
Qed.

Lemma string_forall_occurs f c s :
  string_forall f s = true → f c = false → occurs c s = false.
Proof.
  induction s as [|c' s IH]; [done|]. cbn [string_forall occurs].
  intros [Hc' Hs]%andb_true_iff Hc. rewrite IH by done.
  rewrite bool_decide_eq_false_2; [done|]. congruence.
Qed.

(** X17.  The result of sanitizing holds none of the characters the table
    replaces or deletes: no listed character, no code point from 0 to 30
    and not 127. *)
Theorem quote_iri_segment_removes s c :
  c ∈ quoted_characters ∨ ord c < 31 ∨ ord c = 127 →
  occurs c (_quote_iri_segment s) = false.
Proof.
  intros Hc%unquoted_false_iff.
  by eapply string_forall_occurs, Hc; apply quote_iri_segment_clean.
Qed.

(** X18.  Sanitizing twice is sanitizing once, and a segment made of characters
    without an entry comes back as it is. *)
Theorem quote_iri_segment_idempotent s :
  _quote_iri_segment (_quote_iri_segment s) = _quote_iri_segment s
  ∧ (string_forall unquoted s = true → _quote_iri_segment s = s).
Proof.
  split; [|apply quote_iri_segment_fixed].
  apply quote_iri_segment_fixed, quote_iri_segment_clean.
Qed.

(** X19.  Sanitizing at most triples the length. *)
Theorem quote_iri_segment_length s :
  (String.length (_quote_iri_segment s) ≤ 3 * String.length s)%nat.
Proof.
  induction s as [|c s IH]; [done|].
  rewrite quote_iri_segment_cons, append_length. cbn [String.length].
  pose proof (proj2 (quote_character_clean c)). lia.
Qed.

Lemma quote_iri_segment_removes_witness :
  occurs " " (_quote_iri_segment "a b c") = false.
Proof.
  apply (quote_iri_segment_removes "a b c" " ").
  left. vm_compute. do 13 right. left.
Defined.

Lemma quote_iri_segment_idempotent_witness :
  _quote_iri_segment "motor/1?x=2" = "motor/1?x=2".
Proof.
  apply (quote_iri_segment_idempotent "motor/1?x=2").
  vm_compute. reflexivity.
Defined.

(** * Which namespaces the constructor accepts *)

Lemma at_end_chomp s : at_end s = bool_decide (chomp s = "").
Proof.
  destruct s as [|c s]; [done|]. unfold at_end. cbn [chomp].
  rewrite (bool_decide_eq_false_2 (String c s = "")) by done. cbn [orb].
  destruct (decide (c = newline)) as [->|Hc], (decide (s = "")) as [->|Hs].
  - done.
  - rewrite (bool_decide_eq_false_2 (s = "")) by done.
    rewrite andb_false_r. rewrite !bool_decide_eq_false_2; [done..|congruence].
  - rewrite !(bool_decide_eq_false_2 (c = newline)) by done.
    rewrite !bool_decide_eq_false_2; [done..|congruence].
  - rewrite !(bool_decide_eq_false_2 (c = newline)) by done.
    rewrite !bool_decide_eq_false_2; [done..|congruence].
Qed.

Lemma chomp_newline s :
  chomp (String newline s) = if bool_decide (s = "") then ""
                             else String newline (chomp s).
Proof. cbn [chomp]. by rewrite bool_decide_eq_true_2. Qed.

Lemma chomp_other c s :
  c ≠ newline → chomp (String c s) = String c (chomp s).
Proof. intros Hc. cbn [chomp]. by rewrite bool_decide_eq_false_2. Qed.

Lemma ends_in_terminator_cons c s :
  ends_in_terminator (String c s)
  = if bool_decide (s = "") then is_terminator c else ends_in_terminator s.
Proof. by destruct s. Qed.

(** [.*[#/=]$] on any text. *)
Lemma match_here_rest_chomp s : ∀ start,
  match_here [Star Dot; One (Set_ [Single "#"; Single "/"; Single "="]); Eol]
    start s
  = ends_in_terminator (chomp s) && negb (occurs newline (chomp s)).
Proof.
  induction s as [|c s IH]; intros start; [done|].
  specialize (IH false). cbn [match_here] in IH |- *. cbn [star].
  rewrite IH. cbn [match_here]. rewrite atom_terminator, at_end_chomp.
  cbn [atom_matches].
  destruct (decide (c = newline)) as [->|Hc].
  - rewrite (bool_decide_eq_true_2 (newline = newline)) by done.
    rewrite chomp_newline.
    change (is_terminator newline) with false. cbn [andb orb negb].
    destruct (decide (s = "")) as [->|Hs]; [done|].
    rewrite (bool_decide_eq_false_2 (s = "")) by done. cbn [occurs].
    rewrite (bool_decide_eq_true_2 (newline = newline)) by done.
    by rewrite andb_false_r.
  - rewrite (bool_decide_eq_false_2 (c = newline)) by done.
    rewrite chomp_other by done. rewrite ends_in_terminator_cons.
    cbn [occurs]. rewrite (bool_decide_eq_false_2 (c = newline)) by done.
    cbn [negb andb orb]. destruct (decide (chomp s = "")) as [Ht|Ht].
    + rewrite !(bool_decide_eq_true_2 (chomp s = "")) by done.
      rewrite Ht. cbn. by rewrite !andb_true_r, orb_false_r.
    + rewrite !(bool_decide_eq_false_2 (chomp s = "")) by done.
      by rewrite andb_false_r.
Qed.

Lemma match_here_scheme_tail_chomp s : ∀ start,
  match_here
    [Star (Set_ [Range "a" "z"; Range "A" "Z"; Range "0" "9";
                 Single "+"; Single "-"; Single "."]);
     One (Chr ":"); Star Dot;
     One (Set_ [Single "#"; Single "/"; Single "="]); Eol] start s
  = scheme_tail (chomp s) && ends_in_terminator (chomp s)
    && negb (occurs newline (chomp s)).
Proof.
  induction s as [|c s IH]; intros start; [done|].
  specialize (IH false). cbn [match_here] in IH |- *. cbn [star].
  rewrite IH, atom_scheme_character.
  pose proof (match_here_rest_chomp s false) as Hrest.
  cbn [match_here] in Hrest. rewrite Hrest. cbn [atom_matches].
  destruct (decide (c = newline)) as [->|Hc].
  - change (is_scheme_character newline) with false.
    rewrite (bool_decide_eq_false_2 (newline = ":"%char)) by done.
    rewrite chomp_newline. cbn [andb orb].
    destruct (decide (s = "")) as [->|Hs]; [done|].
    rewrite (bool_decide_eq_false_2 (s = "")) by done.
    cbn [scheme_tail]. rewrite (bool_decide_eq_false_2 (newline = ":"%char)) by done.
    by change (is_scheme_character newline) with false.
  - rewrite chomp_other by done. rewrite ends_in_terminator_cons.
    cbn [scheme_tail occurs].
    rewrite (bool_decide_eq_false_2 (c = newline)) by done. cbn [orb].
    destruct (decide (c = ":"%char)) as [->|Hcolon].
    + rewrite !bool_decide_eq_true_2 by done.
      change (is_scheme_character ":") with false.
      change (is_terminator ":") with false. cbn [andb orb].
      rewrite orb_false_r. destruct (decide (chomp s = "")) as [Ht|Ht].
      * rewrite (bool_decide_eq_true_2 (chomp s = "")) by done. by rewrite Ht.
      * by rewrite (bool_decide_eq_false_2 (chomp s = "")) by done.
    + rewrite !(bool_decide_eq_false_2 (c = ":"%char)) by done. cbn [andb orb].
      destruct (decide (chomp s = "")) as [Ht|Ht].
      * rewrite (bool_decide_eq_true_2 (chomp s = "")) by done.
        rewrite Ht. cbn. by rewrite !andb_false_r.
      * rewrite (bool_decide_eq_false_2 (chomp s = "")) by done.
        by rewrite !andb_assoc.
Qed.

Lemma re_match_namespace_chomp s :
  re_match namespace_pattern s
  = spec_namespace_ok (chomp s) && negb (occurs newline (chomp s)).
Proof.
  destruct s as [|c s]; [done|].
  unfold re_match, namespace_pattern, spec_namespace_ok.
  pose proof (match_here_scheme_tail_chomp s false) as Htail.
  cbn [match_here] in Htail |- *. rewrite Htail, atom_letter. cbn [andb].
  destruct (decide (c = newline)) as [->|Hc].
  - change (is_letter newline) with false. rewrite chomp_newline.
    cbn [andb]. destruct (decide (s = "")) as [->|Hs]; [done|].
    rewrite (bool_decide_eq_false_2 (s = "")) by done. cbn [scheme_qualified].
    by change (is_letter newline) with false.
  - rewrite chomp_other by done. rewrite ends_in_terminator_cons.
    cbn [scheme_qualified occurs].
    rewrite (bool_decide_eq_false_2 (c = newline)) by done. cbn [orb].
    destruct (decide (chomp s = "")) as [Ht|Ht].
    + rewrite (bool_decide_eq_true_2 (chomp s = "")) by done.
      rewrite Ht. cbn. by rewrite !andb_false_r.
    + rewrite (bool_decide_eq_false_2 (chomp s = "")) by done.
      by rewrite !andb_assoc.
Qed.

(** X20.  The constructor accepts a namespace exactly when the namespace, a
    final line feed set aside, has no line feed, starts with a scheme and
    a colon (a letter, then letters, digits, [+], [-] or [.], then [:])
    and ends in [#], [/] or [=]; it then stores the namespace as given,
    with an empty counter cache, and otherwise raises [ValueError]. *)
Theorem init_accepts_iff namespace :
  NamespaceIRIGenerator.init namespace
  = if scheme_qualified (chomp namespace)
       && ends_in_terminator (chomp namespace)
       && negb (occurs newline (chomp namespace))
    then Ok {| NamespaceIRIGenerator._namespace := namespace;
               NamespaceIRIGenerator._counter_cache := ∅ |}
    else Raise ValueError.
Proof.
  unfold NamespaceIRIGenerator.init. rewrite re_match_namespace_chomp.
  unfold spec_namespace_ok. by destruct (_ && _ && _).
Qed.

(** * The store with the order of its entries *)

Section OrderedStore_facts.
Import OrderedStore.
Implicit Types (d : dict) (s : t) (x : Identifiable) (k : string) (v : loc).

Lemma dict_get_list_to_map d k :
  (list_to_map d : gmap string loc) !! k = dict_get k d.
Proof.
  induction d as [|[k' v'] d IH]; [done|].
  rewrite list_to_map_cons. cbn [dict_get].
  destruct (decide (k' = k)) as [->|Hk].
  - by rewrite lookup_insert_eq.
  - by rewrite lookup_insert_ne.
Qed.

Lemma list_to_map_dict_set d k v :
  (list_to_map (dict_set k v d) : gmap string loc) = <[k := v]> (list_to_map d).
Proof.
  induction d as [|[k' v'] d IH]; [done|]. cbn [dict_set].
  destruct (decide (k' = k)) as [->|Hk]; rewrite !list_to_map_cons.
  - by rewrite insert_insert_eq.
  - rewrite IH. by apply insert_insert_ne.
Qed.

Lemma dict_get_None d k : dict_get k d = None ↔ k ∉ d.*1.
Proof.
  rewrite <- dict_get_list_to_map. symmetry. apply not_elem_of_list_to_map.
Qed.

Lemma list_to_map_dict_del d k :
  NoDup d.*1 →
  (list_to_map (dict_del k d) : gmap string loc) = delete k (list_to_map d).
Proof.
  induction d as [|[k' v'] d IH]; intros Hnd.
  - cbn. by rewrite delete_empty.
  - rewrite fmap_cons in Hnd. apply NoDup_cons in Hnd as [Hk' Hnd].
    cbn [dict_del fst] in *.
    destruct (decide (k' = k)) as [->|Hk]; rewrite !list_to_map_cons.
    + rewrite delete_insert_eq, delete_id; [done|].
      by apply not_elem_of_list_to_map.
    + rewrite IH by done. by rewrite delete_insert_ne.
Qed.

Lemma dict_set_keys d k v :
  (dict_set k v d).*1 = if decide (k ∈ d.*1) then d.*1 else (d.*1 ++ [k])%list.
Proof.
  induction d as [|[k' v'] d IH].
  - cbn. rewrite decide_False; [done|]. apply not_elem_of_nil.
  - cbn [dict_set]. destruct (decide (k' = k)) as [->|Hk].
    + rewrite !fmap_cons. cbn [fst]. by rewrite decide_True by (by left).
    + rewrite !fmap_cons, IH. cbn [fst].
      destruct (decide (k ∈ d.*1)) as [Hin|Hin].
      * by rewrite decide_True by (by right).
      * rewrite decide_False; [done|].
        intros [?|?]%elem_of_cons; congruence.
Qed.

Lemma filter_other_keys d k :
  k ∉ d.*1 → List.filter (λ kv, negb (bool_decide (kv.1 = k))) d = d.
Proof.
  induction d as [|[k' v'] d IH]; [done|]. rewrite fmap_cons. cbn [fst].
  intros [Hne Hk]%not_elem_of_cons. cbn [List.filter fst].
  rewrite bool_decide_eq_false_2 by done. cbn [negb]. by rewrite IH.
Qed.

Lemma dict_del_filter d k :
  NoDup d.*1 →
  dict_del k d = List.filter (λ kv, negb (bool_decide (kv.1 = k))) d.
Proof.
  induction d as [|[k' v'] d IH]; intros Hnd; [done|].
  rewrite fmap_cons in Hnd. cbn [fst] in Hnd.
  apply NoDup_cons in Hnd as [Hk' Hnd]. cbn [dict_del List.filter fst].
  destruct (decide (k' = k)) as [->|Hk].
  - rewrite bool_decide_eq_true_2 by done. cbn [negb].
    by rewrite filter_other_keys.
  - rewrite bool_decide_eq_false_2 by done. cbn [negb]. by rewrite IH.
Qed.

Lemma dict_del_keys_subset d k k' : k' ∈ (dict_del k d).*1 → k' ∈ d.*1.
Proof.
  induction d as [|[k2 v2] d IH]; [done|]. cbn [dict_del].
  destruct (decide (k2 = k)) as [->|Hk]; rewrite !fmap_cons; cbn [fst].
  - intros Hin. by right.
  - intros [->|Hin]%elem_of_cons; [by left|]. right. by apply IH.
Qed.

Lemma dict_del_keys_NoDup d k : NoDup d.*1 → NoDup (dict_del k d).*1.
Proof.
  induction d as [|[k' v'] d IH]; intros Hnd; [done|].
  rewrite fmap_cons in Hnd. cbn [fst] in Hnd.
  apply NoDup_cons in Hnd as [Hk' Hnd]. cbn [dict_del].
  destruct (decide (k' = k)) as [->|Hk]; [done|].
  rewrite fmap_cons. cbn [fst]. apply NoDup_cons. split; [|by apply IH].
  intros Hin. by apply Hk', (dict_del_keys_subset d k).
Qed.

Lemma dict_set_fresh d k v :
  dict_get k d = None → dict_set k v d = (d ++ [(k, v)])%list.
Proof.
  induction d as [|[k' v'] d IH]; [done|]. cbn [dict_get dict_set].
  destruct (decide (k' = k)) as [->|Hk]; [done|].
  intros E. by rewrite IH.
Qed.

Lemma dict_get_app_fresh d k v :
  dict_get k d = None → dict_get k (d ++ [(k, v)])%list = Some v.
Proof.
  induction d as [|[k' v'] d IH]; cbn [dict_get app].
  - by rewrite decide_True.
  - destruct (decide (k' = k)) as [->|Hk]; [done|]. apply IH.
Qed.

Lemma dict_del_app_fresh d k v :
  dict_get k d = None → dict_del k (d ++ [(k, v)])%list = d.
Proof.
  induction d as [|[k' v'] d IH]; cbn [dict_get dict_del app].
  - by rewrite decide_True.
  - destruct (decide (k' = k)) as [->|Hk]; [done|].
    intros E. by rewrite IH.
Qed.

Lemma dict_get_filter_out d k :
  dict_get k (List.filter (λ kv, negb (bool_decide (kv.1 = k))) d) = None.
Proof.
  induction d as [|[k' v'] d IH]; [done|]. cbn [List.filter fst].
  destruct (decide (k' = k)) as [->|Hk].
  - by rewrite bool_decide_eq_true_2.
  - rewrite bool_decide_eq_false_2 by done. cbn [negb dict_get].
    by rewrite decide_False.
Qed.

(** X1.  On the [dict] with its order: [add] then [discard] of an object
    whose id was free gives the store back, entries and order; [discard]
    then [add] of a member gives a store with the same entries in which
    that member has moved to the end, the others keeping their order. *)
Theorem ordered_add_discard_round_trip s x :
  well_formed s →
  (dict_get (id x) (_backend s) = None → discard x (add x s).1 = (s, Ok ()))
  ∧ (dict_get (id x) (_backend s) = Some (self x) →
     add x (discard x s).1
     = ({| _backend :=
             (List.filter (λ kv, negb (bool_decide (kv.1 = id x)))
                (_backend s) ++ [(id x, self x)])%list |}, Ok ())
     ∧ to_store (add x (discard x s).1).1 = to_store s).
Proof.
  intros Hwf. split; intros E.
  - unfold add. rewrite E. cbn [bool_decide andb fst].
    rewrite bool_decide_eq_false_2 by (by intros [? ?]). cbn [andb fst].
    unfold discard. cbn [_backend]. rewrite dict_set_fresh by done.
    rewrite dict_get_app_fresh by done. unfold py_is.
    rewrite bool_decide_eq_true_2 by done.
    rewrite dict_del_app_fresh by done. by destruct s.
  - assert (add x (discard x s).1
            = ({| _backend :=
                    (List.filter (λ kv, negb (bool_decide (kv.1 = id x)))
                       (_backend s) ++ [(id x, self x)])%list |}, Ok ()))
      as Hadd.
    { unfold discard. rewrite (proj2 (py_is_true _ _) E). cbn [fst].
      unfold add. cbn [_backend]. rewrite dict_del_filter by done.
      rewrite dict_get_filter_out.
      rewrite bool_decide_eq_false_2 by (by intros [? ?]). cbn [andb].
      by rewrite dict_set_fresh by apply dict_get_filter_out. }
    split; [done|]. rewrite Hadd. cbn [fst]. unfold to_store. f_equal.
    cbn [_backend]. rewrite <- dict_set_fresh by apply dict_get_filter_out.
    rewrite <- dict_del_filter by done.
    rewrite list_to_map_dict_set, list_to_map_dict_del by done.
    rewrite insert_delete_eq. apply insert_id.
    by rewrite dict_get_list_to_map.
Qed.

(** X21.  The two models of the store agree: on a well-formed [dict], [add],
    [discard] and [get_identifiable] give the same results and
    corresponding stores, keep the [dict] well formed, and the lengths are
    the same. *)
Theorem ordered_store_refines s x k :
  well_formed s →
  (to_store (add x s).1 = (DictObjectStore.add x (to_store s)).1
   ∧ (add x s).2 = (DictObjectStore.add x (to_store s)).2
   ∧ well_formed (add x s).1)
  ∧ (to_store (discard x s).1 = (DictObjectStore.discard x (to_store s)).1
     ∧ (discard x s).2 = (DictObjectStore.discard x (to_store s)).2
     ∧ well_formed (discard x s).1)
  ∧ ((get_identifiable k s).2
       = (DictObjectStore.get_identifiable k (to_store s)).2
     ∧ (get_identifiable k s).1 = s)
  ∧ __len__ s = DictObjectStore.__len__ (to_store s).
Proof.
  intros Hwf. unfold well_formed in *. split_and!.
  - unfold add, DictObjectStore.add, to_store. cbn [DictObjectStore._backend].
    rewrite dict_get_list_to_map. destruct (_ && _); [done|].
    cbn. by rewrite list_to_map_dict_set.
  - unfold add, DictObjectStore.add, to_store. cbn [DictObjectStore._backend].
    rewrite dict_get_list_to_map. by destruct (_ && _).
  - unfold add. destruct (_ && _); [done|]. cbn. rewrite dict_set_keys.
    case_decide as Hin; [done|].
    apply NoDup_app. split_and!; [done| |apply NoDup_singleton].
    intros k' Hk' ->%list_elem_of_singleton. done.
  - unfold discard, DictObjectStore.discard, to_store.
    cbn [DictObjectStore._backend]. rewrite dict_get_list_to_map.
    destruct (py_is _ _); [|done]. cbn. by rewrite list_to_map_dict_del.
  - unfold discard, DictObjectStore.discard, to_store.
    cbn [DictObjectStore._backend]. rewrite dict_get_list_to_map.
    by destruct (py_is _ _).
  - unfold discard. destruct (py_is _ _); [|done]. cbn.
    by apply dict_del_keys_NoDup.
  - unfold get_identifiable, DictObjectStore.get_identifiable, to_store.
    cbn [DictObjectStore._backend]. rewrite dict_get_list_to_map.
    by destruct (dict_get k (_backend s)).
  - unfold get_identifiable. by destruct (dict_get k (_backend s)).
  - unfold __len__, DictObjectStore.__len__, to_store.
    cbn [DictObjectStore._backend].
    rewrite map_size_list_to_map by done. done.
Qed.

(** X22.  Iteration follows insertion: an object added under a new id comes
    last, adding a member again changes nothing, and discarding a member
    takes its entry out and leaves the others in their order; there are
    as many objects to iterate over as [len] says. *)
Theorem ordered_store_iteration s x :
  well_formed s →
  (dict_get (id x) (_backend s) = None →
     __iter__ (add x s).1 = (__iter__ s ++ [self x])%list)
  ∧ (dict_get (id x) (_backend s) = Some (self x) → (add x s).1 = s)
  ∧ (dict_get (id x) (_backend s) = Some (self x) →
     _backend (discard x s).1
     = List.filter (λ kv, negb (bool_decide (kv.1 = id x))) (_backend s))
  ∧ List.length (__iter__ s) = __len__ s.
Proof.
  intros Hwf. split_and!.
  - intros E. unfold add. rewrite E. cbn. unfold __iter__. cbn.
    clear Hwf. induction (_backend s) as [|[k' v'] d IH]; [done|].
    cbn [dict_get] in E. cbn [dict_set]. case_decide; [done|].
    cbn. by rewrite IH.
  - intros E. unfold add. rewrite E. unfold py_is.
    rewrite (bool_decide_eq_true_2 (self x = self x)) by done.
    rewrite andb_false_r. cbn. destruct s as [d]. cbn in *. f_equal.
    clear Hwf. induction d as [|[k' v'] d IH]; [done|].
    cbn [dict_get] in E. cbn [dict_set]. case_decide; [congruence|].
    by rewrite IH.
  - intros E. unfold discard. rewrite (proj2 (py_is_true _ _) E). cbn.
    by apply dict_del_filter.
  - unfold __iter__, __len__. by rewrite length_fmap.
Qed.

Section Environment_facts.
Variables is_shell is_submodel is_concept_description : loc → bool.

Lemma foldl_sort_object (l : list loc) : ∀ shells sms cds,
  foldl (sort_object is_shell is_submodel is_concept_description)
    (shells, sms, cds) l
  = ((shells ++ List.filter is_shell l)%list,
     (sms ++ List.filter (λ o, negb (is_shell o) && is_submodel o) l)%list,
     (cds ++ List.filter
               (λ o, negb (is_shell o) && negb (is_submodel o)
                     && is_concept_description o) l)%list).
Proof.
  induction l as [|o l IH]; intros shells sms cds.
  - cbn. by rewrite !app_nil_r.
  - cbn [foldl sort_object List.filter].
    destruct (is_shell o), (is_submodel o), (is_concept_description o);
      cbn [negb andb]; rewrite IH; by rewrite <- ?app_assoc.
Qed.

(** X23.  [as_environment] sorts the objects in iteration order: the shells are
    the stored objects that are shells, the submodels those that are
    submodels and no shells, the concept descriptions those that are
    concept descriptions and neither; an object of none of the three
    kinds is in no list, and no entry is listed twice. *)
Theorem as_environment_partition s :
  asset_administration_shells
    (as_environment is_shell is_submodel is_concept_description s)
  = List.filter is_shell (__iter__ s)
  ∧ submodels (as_environment is_shell is_submodel is_concept_description s)
    = List.filter (λ o, negb (is_shell o) && is_submodel o) (__iter__ s)
  ∧ concept_descriptions
      (as_environment is_shell is_submodel is_concept_description s)
    = List.filter (λ o, negb (is_shell o) && negb (is_submodel o)
                        && is_concept_description o) (__iter__ s)
  ∧ (List.length (asset_administration_shells
                    (as_environment is_shell is_submodel
                       is_concept_description s))
     + List.length (submodels
                      (as_environment is_shell is_submodel
                         is_concept_description s))
     + List.length (concept_descriptions
                      (as_environment is_shell is_submodel
                         is_concept_description s))
     ≤ __len__ s)%nat.
Proof.
  unfold as_environment. rewrite foldl_sort_object. cbn.
  split_and!; [done..|].
  unfold __len__, __iter__. rewrite <- (length_fmap snd (_backend s)).
  induction ((_backend s).*2) as [|o l IH]; [done|]. cbn [List.filter].
  destruct (is_shell o), (is_submodel o), (is_concept_description o);
    cbn [negb andb List.length]; lia.
Qed.

End Environment_facts.

End OrderedStore_facts.

Lemma ordered_store_refines_witness :
  OrderedStore.to_store (OrderedStore.add pump ordered_motor_a).1
    = (DictObjectStore.add pump (OrderedStore.to_store ordered_motor_a)).1
  ∧ (OrderedStore.add motor_b ordered_motor_a).2
    = (DictObjectStore.add motor_b (OrderedStore.to_store ordered_motor_a)).2.
Proof.
  split.
  - apply (ordered_store_refines ordered_motor_a pump "motor").
    apply NoDup_singleton.
  - apply (ordered_store_refines ordered_motor_a motor_b "motor").
    apply NoDup_singleton.
Defined.

Lemma ordered_store_iteration_witness :
  OrderedStore.__iter__ (OrderedStore.add pump ordered_motor_a).1
    = (OrderedStore.__iter__ ordered_motor_a ++ [3%positive])%list
  ∧ OrderedStore._backend (OrderedStore.discard motor_a ordered_motor_a_pump).1
    = [("pump", 3%positive)].
Proof.
  split.
  - apply (ordered_store_iteration ordered_motor_a pump);
      [apply NoDup_singleton|reflexivity].
  - refine (proj1 (proj2 (proj2 (ordered_store_iteration ordered_motor_a_pump
                                    motor_a _))) _).
    + apply NoDup_cons. split; [|apply NoDup_singleton].
      intros Hin%list_elem_of_singleton. discriminate Hin.
    + reflexivity.
Defined.

Lemma ordered_add_discard_round_trip_witness :
  OrderedStore.discard pump (OrderedStore.add pump ordered_motor_a).1
    = (ordered_motor_a, Ok ())
  ∧ OrderedStore.add motor_a
      (OrderedStore.discard motor_a ordered_motor_a_pump).1
    = ({| OrderedStore._backend :=
            [("pump", 3%positive); ("motor", 1%positive)] |}, Ok ()).
Proof.
  split.
  - apply (ordered_add_discard_round_trip ordered_motor_a pump);
      [apply NoDup_singleton|reflexivity].
  - refine (proj1 (proj2 (ordered_add_discard_round_trip ordered_motor_a_pump
                            motor_a _) _)).
    + apply NoDup_cons. split; [|apply NoDup_singleton].
      intros Hin%list_elem_of_singleton. discriminate Hin.
    + reflexivity.
Defined.

(** * The serialization tables *)

Section generic_facts.
Import generic.

Lemma serialize_deserialize {E} `{EqDecision E} (table : list (E * string)) :
  NoDup table.*2 →
  ∀ member text,
    serialize table member = Some text → deserialize table text = Some member.
Proof.
  unfold serialize, deserialize.
  induction table as [|[k v] table IH]; intros Hnd member text; [done|].
  rewrite fmap_cons in Hnd. cbn [snd] in Hnd.
  apply NoDup_cons in Hnd as [Hv Hnd]. cbn [List.find fst snd].
  destruct (decide (k = member)) as [->|Hk].
  - rewrite bool_decide_eq_true_2 by done. cbn. intros [= ->].
    by rewrite bool_decide_eq_true_2.
  - rewrite (bool_decide_eq_false_2 (k = member)) by done. intros Hser.
    assert (v ≠ text) as Hne.
    { intros ->. apply Hv.
      destruct (List.find _ table) as [[k' v']|] eqn:Hfind; [|done].
      cbn in Hser. injection Hser as ->.
      apply find_some in Hfind as [Hin _]. apply list_elem_of_fmap.
      exists (k', text). split; [done|]. by apply list_elem_of_In. }
    rewrite bool_decide_eq_false_2 by done. by apply IH.
Qed.

Lemma deserialize_serialize {E} `{EqDecision E} (table : list (E * string)) :
  NoDup table.*1 →
  ∀ member text,
    deserialize table text = Some member → serialize table member = Some text.
Proof.
  unfold serialize, deserialize.
  induction table as [|[k v] table IH]; intros Hnd member text; [done|].
  rewrite fmap_cons in Hnd. cbn [fst] in Hnd.
  apply NoDup_cons in Hnd as [Hk Hnd]. cbn [List.find fst snd].
  destruct (decide (v = text)) as [->|Hv].
  - rewrite bool_decide_eq_true_2 by done. cbn. intros [= ->].
    by rewrite bool_decide_eq_true_2.
  - rewrite (bool_decide_eq_false_2 (v = text)) by done. intros Hdes.
    assert (k ≠ member) as Hne.
    { intros ->. apply Hk.
      destruct (List.find _ table) as [[k' v']|] eqn:Hfind; [|done].
      cbn in Hdes. injection Hdes as ->.
      apply find_some in Hfind as [Hin _]. apply list_elem_of_fmap.
      exists (member, v'). split; [done|]. by apply list_elem_of_In. }
    rewrite bool_decide_eq_false_2 by done. by apply IH.
Qed.

Lemma invertible_dec {E} `{EqDecision E} (table : list (E * string)) :
  bool_decide (NoDup table.*1) = true →
  bool_decide (NoDup table.*2) = true →
  invertible table.
Proof.
  intros Hkeys%bool_decide_eq_true_1 Hvalues%bool_decide_eq_true_1.
  split_and!; [done..|]. intros member text. split.
  - by apply serialize_deserialize.
  - by apply deserialize_serialize.
Qed.

(** X24.  Every one of the eight tables can be inverted: none lists a
    member twice, none serializes two members as the same string, and in
    each the string of a member leads back to that member and to no
    other. *)
Theorem tables_invertible :
  invertible MODELING_KIND ∧ invertible ASSET_KIND
  ∧ invertible KEY_ELEMENTS ∧ invertible KEY_TYPES
  ∧ invertible IDENTIFIER_TYPES ∧ invertible ENTITY_TYPES
  ∧ invertible IEC61360_DATA_TYPES ∧ invertible IEC61360_LEVEL_TYPES.
Proof.
  split_and!; apply invertible_dec; vm_compute; reflexivity.
Qed.

End generic_facts.

Lemma tables_invertible_witness :
  generic.deserialize generic.KEY_ELEMENTS "Submodel"
  = Some generic.KeyElements.SUBMODEL.
Proof.
  destruct tables_invertible as (_ & _ & (_ & _ & Hkey) & _).
  apply Hkey. vm_compute. reflexivity.
Defined.
